(** * verax: the recursive validation engine

    A shallow embedding of the core of the Go package [verax]
    (rule dispatch, [Each], [Map], [ValidateStruct] and the value
    classifiers of [helpers.go]) together with the properties the
    specification states about it.

    Conventions.
    - A Go [any] is a [value]: [VNil] is the nil interface, every other
      constructor carries what is needed to recover the dynamic type.
    - A Go [error] is [option Err] ([None] is the nil error).
    - Run-time panics are explicit: a function that may panic returns in
      [run], whose [Panic] absorbs everything that follows.
    - Everything the engine asks of the validated program (method sets,
      [fmt] formatting, the process-wide [ErrorTag]) is gathered in [Env].
    - Values are finite trees: a pointer carries its address and a
      snapshot of what it points to, so cyclic data is outside the model. *)

From Stdlib Require Import Ascii.
From stdpp Require Import base option list gmap strings pretty.

#[local] Set Warnings "-register-all".
#[local] Open Scope string_scope.
#[local] Open Scope Z_scope.

(** ** Kinds and types (package reflect) *)

Inductive Kind : Type :=
| KInvalid | KBool
| KInt | KInt8 | KInt16 | KInt32 | KInt64
| KUint | KUint8 | KUint16 | KUint32 | KUint64 | KUintptr
| KFloat32 | KFloat64 | KComplex64 | KComplex128
| KArray | KChan | KFunc | KInterface | KMap | KPtr | KSlice
| KString | KStruct | KUnsafePointer.

#[global] Instance Kind_eq_dec : EqDecision Kind.
Proof. solve_decision. Defined.

(** The numeric value of a kind, in the order of reflect's [iota]. *)
Definition Kind_num (k : Kind) : Z :=
  match k with
  | KInvalid => 0 | KBool => 1
  | KInt => 2 | KInt8 => 3 | KInt16 => 4 | KInt32 => 5 | KInt64 => 6
  | KUint => 7 | KUint8 => 8 | KUint16 => 9 | KUint32 => 10
  | KUint64 => 11 | KUintptr => 12
  | KFloat32 => 13 | KFloat64 => 14 | KComplex64 => 15 | KComplex128 => 16
  | KArray => 17 | KChan => 18 | KFunc => 19 | KInterface => 20
  | KMap => 21 | KPtr => 22 | KSlice => 23
  | KString => 24 | KStruct => 25 | KUnsafePointer => 26
  end.

Inductive IntKind : Type := I0 | I8 | I16 | I32 | I64.
Inductive UintKind : Type := U0 | U8 | U16 | U32 | U64 | Uptr.
Inductive FloatKind : Type := F32 | F64.
Inductive ComplexKind : Type := C64 | C128.
Inductive ChanDir : Type := RecvDir | SendDir | BothDir.

#[global] Instance IntKind_eq_dec : EqDecision IntKind.
Proof. solve_decision. Defined.
#[global] Instance UintKind_eq_dec : EqDecision UintKind.
Proof. solve_decision. Defined.
#[global] Instance FloatKind_eq_dec : EqDecision FloatKind.
Proof. solve_decision. Defined.
#[global] Instance ComplexKind_eq_dec : EqDecision ComplexKind.
Proof. solve_decision. Defined.
#[global] Instance ChanDir_eq_dec : EqDecision ChanDir.
Proof. solve_decision. Defined.

(** The predeclared types. *)
Inductive Basic : Type :=
| BBool
| BInt (k : IntKind)
| BUint (k : UintKind)
| BFloat (k : FloatKind)
| BComplex (k : ComplexKind)
| BString
| BUnsafePointer.

#[global] Instance Basic_eq_dec : EqDecision Basic.
Proof. solve_decision. Defined.

(** Go types up to identity.  A defined type is its name over its
    underlying type; function, struct and interface literals are kept as
    their canonical spelling, which is all that type identity needs. *)
Inductive GoType : Type :=
| TBasic (b : Basic)
| TNamed (name : string) (under : GoType)
| TPtr (elem : GoType)
| TSlice (elem : GoType)
| TArray (len : nat) (elem : GoType)
| TMap (key elem : GoType)
| TChan (dir : ChanDir) (elem : GoType)
| TFunc (sig : string)
| TStruct (sig : string)
| TInterface (sig : string).

#[global] Instance GoType_eq_dec : EqDecision GoType.
Proof. solve_decision. Defined.

Definition Basic_kind (b : Basic) : Kind :=
  match b with
  | BBool => KBool
  | BInt I0 => KInt | BInt I8 => KInt8 | BInt I16 => KInt16
  | BInt I32 => KInt32 | BInt I64 => KInt64
  | BUint U0 => KUint | BUint U8 => KUint8 | BUint U16 => KUint16
  | BUint U32 => KUint32 | BUint U64 => KUint64 | BUint Uptr => KUintptr
  | BFloat F32 => KFloat32 | BFloat F64 => KFloat64
  | BComplex C64 => KComplex64 | BComplex C128 => KComplex128
  | BString => KString
  | BUnsafePointer => KUnsafePointer
  end.

(** [t.Kind()] *)
Fixpoint kindOf (t : GoType) : Kind :=
  match t with
  | TBasic b => Basic_kind b
  | TNamed _ u => kindOf u
  | TPtr _ => KPtr
  | TSlice _ => KSlice
  | TArray _ _ => KArray
  | TMap _ _ => KMap
  | TChan _ _ => KChan
  | TFunc _ => KFunc
  | TStruct _ => KStruct
  | TInterface _ => KInterface
  end.

Fixpoint underlying (t : GoType) : GoType :=
  match t with
  | TNamed _ u => underlying u
  | _ => t
  end.

(** A type has a name when it is predeclared or defined. *)
Definition hasName (t : GoType) : bool :=
  match t with
  | TBasic _ | TNamed _ _ => true
  | _ => false
  end.

(** [t.Name()] is empty exactly for the unnamed types. *)
Definition nameIsEmpty (t : GoType) : bool := negb (hasName t).

(** [t.Elem()] and [t.Key()]; [None] where reflect panics. *)
Definition elemOf (t : GoType) : option GoType :=
  match underlying t with
  | TPtr e | TSlice e | TArray _ e | TMap _ e | TChan _ e => Some e
  | _ => None
  end.

Definition keyOf (t : GoType) : option GoType :=
  match underlying t with
  | TMap k _ => Some k
  | _ => None
  end.

Definition chanDirOf (t : GoType) : option ChanDir :=
  match underlying t with
  | TChan d _ => Some d
  | _ => None
  end.

Definition Basic_string (b : Basic) : string :=
  match b with
  | BBool => "bool"
  | BInt I0 => "int" | BInt I8 => "int8" | BInt I16 => "int16"
  | BInt I32 => "int32" | BInt I64 => "int64"
  | BUint U0 => "uint" | BUint U8 => "uint8" | BUint U16 => "uint16"
  | BUint U32 => "uint32" | BUint U64 => "uint64" | BUint Uptr => "uintptr"
  | BFloat F32 => "float32" | BFloat F64 => "float64"
  | BComplex C64 => "complex64" | BComplex C128 => "complex128"
  | BString => "string"
  | BUnsafePointer => "unsafe.Pointer"
  end.

(** [t.String()] *)
Fixpoint typeString (t : GoType) : string :=
  match t with
  | TBasic b => Basic_string b
  | TNamed n _ => n
  | TPtr e => "*" ++ typeString e
  | TSlice e => "[]" ++ typeString e
  | TArray n e => "[" ++ pretty n ++ "]" ++ typeString e
  | TMap k e => "map[" ++ typeString k ++ "]" ++ typeString e
  | TChan BothDir e => "chan " ++ typeString e
  | TChan RecvDir e => "<-chan " ++ typeString e
  | TChan SendDir e => "chan<- " ++ typeString e
  | TFunc s | TStruct s | TInterface s => s
  end.

(** ** Errors

    Modelled from the spec: the error library [xrr] is an external
    collaborator whose sources are not part of the repository.  A leaf
    error is a message with a machine code, [xrr.Wrap] with a code gives
    an error carrying that code, and [xrr.Fields] is a path-keyed mapping
    to nested errors whose entries may be nil.  The two error types the
    package declares itself, [ErrFieldNotFound] and [ErrFieldPointer],
    and errors of any other type ([ErrOther], with the result of its
    [ErrorCode] method when it has one) complete the universe. *)
Inductive Err : Type :=
| XrrNew (msg code : string)
| XrrWrap (inner : Err) (code : string)
| XrrFields (fs : gmap string (option Err))
| ErrFieldNotFound (i : nat)
| ErrFieldPointer (i : nat)
| ErrOther (msg : string) (code : option string).

(** A Go [error]: nil or an error value. *)
Abbreviation error := (option Err).

(** An [xrr.Fields] map. *)
Abbreviation Fields := (gmap string (option Err)).

(** Package level error codes. *)
Definition ECInternal : string := "ECInternal".
Definition ECInvType : string := "ECInvType".
Definition ECMapKeyMissing : string := "ECMapKeyMissing".
Definition ECMapKeyUnexpected : string := "ECMapKeyUnexpected".

(** Modelled from the spec: the code [xrr] reports for an error without
    an [ErrorCode] method. *)
Definition ECGeneric : string := "ECGeneric".

(** ** Values *)

(** The declaration of a struct field, as [reflect.StructField] shows
    it; the tag is kept in its parsed form, a list of key and value. *)
Record FieldDecl : Type := mkFieldDecl {
  fd_name : string;
  fd_type : GoType;
  fd_anon : bool;
  fd_tag : list (string * string)
}.

(** The name of a defined type, or [None] for the type literal. *)
Abbreviation tyname := (option string).

(** A pointer, channel or function is nil when it has no target; floats
    and complex numbers are kept as IEEE-754 bit patterns.  The elements
    of containers and the fields of structs are the contents of storage
    of the declared element type: for an interface-typed slot that is
    the dynamic value, [VNil] when the interface is nil.  A struct field
    carries its declaration, its address and its content.

    A value is a finite tree: what a pointer points to is part of the
    value.  The values of Go that reach themselves through a pointer or
    an interface ([var a any; a = &a]) are not among them; on those the
    functions that follow pointers recurse without end in the code. *)
Inductive value : Type :=
| VNil
| VBool (nm : tyname) (b : bool)
| VInt (nm : tyname) (k : IntKind) (n : Z)
| VUint (nm : tyname) (k : UintKind) (n : Z)
| VFloat (nm : tyname) (k : FloatKind) (bits : Z)
| VComplex (nm : tyname) (k : ComplexKind) (re im : Z)
| VString (nm : tyname) (s : string)
| VUnsafePointer (nm : tyname) (addr : Z)
| VChan (nm : tyname) (dir : ChanDir) (elem : GoType) (ch : option positive)
| VFunc (nm : tyname) (sig : string) (fn : option positive)
| VPtr (nm : tyname) (elem : GoType) (target : option (positive * value))
| VSlice (nm : tyname) (elem : GoType) (xs : option (list value))
| VArray (nm : tyname) (elem : GoType) (xs : list value)
| VMap (nm : tyname) (kt et : GoType) (m : option (list (value * value)))
| VStruct (nm : tyname) (sig : string)
    (fields : list (FieldDecl * positive * value)).

Definition named (nm : tyname) (t : GoType) : GoType :=
  match nm with
  | Some n => TNamed n t
  | None => t
  end.

(** The dynamic type of an [any]; the nil interface has none. *)
Definition typeOf (v : value) : option GoType :=
  match v with
  | VNil => None
  | VBool nm _ => Some (named nm (TBasic BBool))
  | VInt nm k _ => Some (named nm (TBasic (BInt k)))
  | VUint nm k _ => Some (named nm (TBasic (BUint k)))
  | VFloat nm k _ => Some (named nm (TBasic (BFloat k)))
  | VComplex nm k _ _ => Some (named nm (TBasic (BComplex k)))
  | VString nm _ => Some (named nm (TBasic BString))
  | VUnsafePointer nm _ => Some (named nm (TBasic BUnsafePointer))
  | VChan nm d e _ => Some (named nm (TChan d e))
  | VFunc nm s _ => Some (named nm (TFunc s))
  | VPtr nm e _ => Some (named nm (TPtr e))
  | VSlice nm e _ => Some (named nm (TSlice e))
  | VArray nm e xs => Some (named nm (TArray (length xs) e))
  | VMap nm k e _ => Some (named nm (TMap k e))
  | VStruct nm s _ => Some (named nm (TStruct s))
  end.

(** ** Panics *)

Inductive run (A : Type) : Type :=
| Done (a : A)
| Panic.
Arguments Done {A} a.
Arguments Panic {A}.

#[global] Instance run_ret : MRet run := @Done.
#[global] Instance run_bind : MBind run := fun A B f m =>
  match m with
  | Done a => f a
  | Panic => Panic
  end.

(** ** Rules

    A [Rule] is an interface value: either the distinguished [skipRule]
    (a named bool), or a value of any other rule type, which is its
    [Validate] method. *)
Inductive Rule : Type :=
| skipRule (condition : bool)
| ruleOf (validate : value -> run error).

(** [Skip] indicates that all rules following it should be skipped. *)
Definition Skip : Rule := skipRule true.

(** [skipRule.Validate] returns nil whatever the value. *)
Definition Rule_Validate (r : Rule) (v : value) : run error :=
  match r with
  | skipRule _ => Done None
  | ruleOf f => f v
  end.

(** [skipRule.When] *)
Definition skipRule_When (_ : Rule) (condition : bool) : Rule :=
  skipRule condition.

(** ** The validated program

    What the engine finds out about the program through type assertions
    and library calls: the methods of each dynamic type, interface
    satisfaction, [fmt]'s rendering and the texts [xrr] gives a Fields
    error. *)
Record Env : Type := mkEnv {
  (** the process-wide default tag name *)
  ErrorTag : string;
  (** [Validate() error], for the types that have it *)
  mValidate : GoType -> option (value -> run error);
  (** [ValidateWith(rule Rule) error] *)
  mValidateWith : GoType -> option (value -> Rule -> run error);
  (** [IsZero() bool] *)
  mIsZero : GoType -> option (value -> bool);
  (** [Value() (driver.Value, error)] *)
  mValue : GoType -> option (value -> value * error);
  (** [implements T V]: T is an interface type and V implements it *)
  implements : GoType -> GoType -> bool;
  (** [fmt.Sprintf("%v", v)] *)
  Sprintf_v : value -> string;
  (** [Error()] and the code of an [xrr.Fields] *)
  fieldsText : Fields -> string;
  fieldsCode : Fields -> string
}.

(** ** reflect.Value

    A [reflect.Value] is the zero Value or a piece of storage: its
    static type and its content.  [ValueOf] of an [any] sees the dynamic
    type, so its kind is never [KInterface]; the elements of a container
    and the target of a pointer are seen at their declared type. *)
Inductive Value : Type :=
| Invalid
| Val (t : GoType) (v : value).

Definition ValueOf (v : value) : Value :=
  match typeOf v with
  | Some t => Val t v
  | None => Invalid
  end.

Definition Value_Kind (rv : Value) : Kind :=
  match rv with
  | Invalid => KInvalid
  | Val t _ => kindOf t
  end.

Definition Value_IsValid (rv : Value) : bool :=
  match rv with
  | Invalid => false
  | Val _ _ => true
  end.

(** [rv.Type()]; reflect panics on the zero Value. *)
Definition Value_Type (rv : Value) : run GoType :=
  match rv with
  | Invalid => Panic
  | Val t _ => Done t
  end.

(** [rv.Interface()]; reflect panics on the zero Value. *)
Definition Value_Interface (rv : Value) : run value :=
  match rv with
  | Invalid => Panic
  | Val _ v => Done v
  end.

(** [rv.IsNil()].  reflect panics on the kinds that cannot be nil; every
    call in the package stands behind a test of the kind, so those
    kinds answer [false] here. *)
Definition Value_IsNil (rv : Value) : bool :=
  match rv with
  | Invalid => false
  | Val t v =>
      match kindOf t, v with
      | KInterface, VNil => true
      | KPtr, VPtr _ _ None => true
      | KSlice, VSlice _ _ None => true
      | KMap, VMap _ _ _ None => true
      | KChan, VChan _ _ _ None => true
      | KFunc, VFunc _ _ None => true
      | KUnsafePointer, VUnsafePointer _ 0 => true
      | _, _ => false
      end
  end.

(** [rv.Elem()]: the value an interface holds or a pointer points to;
    the zero Value when that is nil. *)
Definition Value_Elem (rv : Value) : Value :=
  match rv with
  | Invalid => Invalid
  | Val t v =>
      match kindOf t, v with
      | KInterface, _ => ValueOf v
      | KPtr, VPtr _ e (Some (_, x)) => Val e x
      | _, _ => Invalid
      end
  end.

(** [rv.Pointer()] of a pointer: its address, 0 when nil. *)
Definition Value_Pointer (rv : Value) : Z :=
  match rv with
  | Val _ (VPtr _ _ (Some (a, _))) => Z.pos a
  | _ => 0
  end.

(** [rv.Len()] of a string, array, slice or map. *)
Definition Value_Len (rv : Value) : nat :=
  match rv with
  | Val _ (VString _ s) => String.length s
  | Val _ (VArray _ _ xs) => length xs
  | Val _ (VSlice _ _ (Some xs)) => length xs
  | Val _ (VMap _ _ _ (Some m)) => length m
  | _ => 0%nat
  end.

(** The elements of a slice or an array in index order, each seen at the
    declared element type: [rv.Index(i)] for [i] below [rv.Len()]. *)
Definition Value_Elems (rv : Value) : list Value :=
  match rv with
  | Val _ (VArray _ e xs) => Val e <$> xs
  | Val _ (VSlice _ e (Some xs)) => Val e <$> xs
  | _ => []
  end.

(** [rv.NumField()] of a struct, which is [rv.Type().NumField()]. *)
Definition Value_NumField (rv : Value) : nat :=
  match rv with
  | Val _ (VStruct _ _ fs) => length fs
  | _ => 0%nat
  end.

Definition Value_Int (rv : Value) : Z :=
  match rv with
  | Val _ (VInt _ _ n) => n
  | _ => 0
  end.

Definition Value_Uint (rv : Value) : Z :=
  match rv with
  | Val _ (VUint _ _ n) => n
  | _ => 0
  end.

(** [rv.String()]: the string itself for a string, a description of the
    type for anything else. *)
Definition Value_String (rv : Value) : string :=
  match rv with
  | Invalid => "<invalid Value>"
  | Val t v =>
      match kindOf t, v with
      | KString, VString _ s => s
      | _, _ => "<" ++ typeString t ++ " Value>"
      end
  end.

(** *** Comparison and assignability *)

Definition isNaN (k : FloatKind) (bits : Z) : bool :=
  match k with
  | F32 => (Z.land (Z.shiftr bits 23) 255 =? 255)
           && negb (Z.land bits 8388607 =? 0)
  | F64 => (Z.land (Z.shiftr bits 52) 2047 =? 2047)
           && negb (Z.land bits 4503599627370495 =? 0)
  end.

Definition isFloatZero (k : FloatKind) (bits : Z) : bool :=
  match k with
  | F32 => Z.land bits 2147483647 =? 0
  | F64 => Z.land bits 9223372036854775807 =? 0
  end.

Definition float_eq (k : FloatKind) (a b : Z) : bool :=
  negb (isNaN k a) && negb (isNaN k b)
  && ((a =? b) || (isFloatZero k a && isFloatZero k b)).

Definition complexFloat (k : ComplexKind) : FloatKind :=
  match k with
  | C64 => F32
  | C128 => F64
  end.

(** [rv.IsZero()] for the kinds [IsEmpty] leaves to it.  A float is
    zero when it compares equal to 0, the negative zero too, and a
    complex number when both its parts are (reflect since Go 1.22). *)
Definition Value_IsZero (rv : Value) : bool :=
  match rv with
  | Invalid => false
  | Val _ v =>
      match v with
      | VBool _ b => negb b
      | VInt _ _ n | VUint _ _ n => n =? 0
      | VFloat _ k bits => isFloatZero k bits
      | VComplex _ k re im =>
          isFloatZero (complexFloat k) re && isFloatZero (complexFloat k) im
      | VUnsafePointer _ a => a =? 0
      | VChan _ _ _ None | VFunc _ _ None => true
      | _ => false
      end
  end.

(** Go's [==] on two interface values, as map keys are compared: equal
    dynamic types and equal contents, pointers and channels by identity.
    Slices, maps and functions are not comparable (Go panics, and they
    cannot be map keys); they answer [false]. *)
Fixpoint any_eq (a b : value) {struct a} : bool :=
  match a, b with
  | VNil, VNil => true
  | VBool n1 x, VBool n2 y => bool_decide (n1 = n2) && bool_decide (x = y)
  | VInt n1 k1 x, VInt n2 k2 y =>
      bool_decide (n1 = n2) && bool_decide (k1 = k2) && (x =? y)
  | VUint n1 k1 x, VUint n2 k2 y =>
      bool_decide (n1 = n2) && bool_decide (k1 = k2) && (x =? y)
  | VFloat n1 k1 x, VFloat n2 k2 y =>
      bool_decide (n1 = n2) && bool_decide (k1 = k2) && float_eq k1 x y
  | VComplex n1 k1 r1 i1, VComplex n2 k2 r2 i2 =>
      bool_decide (n1 = n2) && bool_decide (k1 = k2)
      && float_eq (complexFloat k1) r1 r2 && float_eq (complexFloat k1) i1 i2
  | VString n1 x, VString n2 y => bool_decide (n1 = n2) && bool_decide (x = y)
  | VUnsafePointer n1 x, VUnsafePointer n2 y =>
      bool_decide (n1 = n2) && (x =? y)
  | VChan n1 d1 e1 x, VChan n2 d2 e2 y =>
      bool_decide (n1 = n2) && bool_decide (d1 = d2) && bool_decide (e1 = e2)
      && bool_decide (x = y)
  | VPtr n1 e1 x, VPtr n2 e2 y =>
      bool_decide (n1 = n2) && bool_decide (e1 = e2)
      && bool_decide (fst <$> x = fst <$> y)
  | VArray n1 e1 xs, VArray n2 e2 ys =>
      bool_decide (n1 = n2) && bool_decide (e1 = e2)
      && (fix all2 (xs ys : list value) {struct xs} : bool :=
            match xs, ys with
            | [], [] => true
            | x :: xs', y :: ys' => any_eq x y && all2 xs' ys'
            | _, _ => false
            end) xs ys
  | VStruct n1 s1 fs, VStruct n2 s2 gs =>
      bool_decide (n1 = n2) && bool_decide (s1 = s2)
      && (fix all2 (fs gs : list (FieldDecl * positive * value)) {struct fs}
            : bool :=
            match fs, gs with
            | [], [] => true
            | (_, _, x) :: fs', (_, _, y) :: gs' => any_eq x y && all2 fs' gs'
            | _, _ => false
            end) fs gs
  | _, _ => false
  end.

(** [haveIdenticalUnderlyingType] *)
Definition haveIdenticalUnderlyingType (T V : GoType) : bool :=
  bool_decide (underlying T = underlying V).

(** [specialChannelAssignability]: V is a bidirectional channel type, T
    a channel type with the same element type, and one of them is not a
    defined type. *)
Definition specialChannelAssignability (T V : GoType) : bool :=
  bool_decide (chanDirOf V = Some BothDir)
  && (nameIsEmpty T || nameIsEmpty V)
  && bool_decide (elemOf T = elemOf V).

(** [directlyAssignable T V]: a value of type V can be stored in a T
    without conversion through an interface. *)
Definition directlyAssignable (T V : GoType) : bool :=
  if bool_decide (T = V) then true
  else if (hasName T && hasName V) || negb (bool_decide (kindOf T = kindOf V))
  then false
  else if bool_decide (kindOf T = KChan) && specialChannelAssignability T V
  then true
  else haveIdenticalUnderlyingType T V.

(** ** Loops

    [forRange] is a [for ... range] loop over a list that threads the
    loop's variables; [forRangeRet] is one whose body may [return]. *)
Inductive flow (S : Type) : Type :=
| Continue (s : S)
| Return (e : error).
Arguments Continue {S} s.
Arguments Return {S} e.

Fixpoint forRange {A S : Type} (body : A -> S -> run S) (xs : list A) (s : S)
  : run S :=
  match xs with
  | [] => Done s
  | x :: xs' => s' ← body x s; forRange body xs' s'
  end.

Fixpoint forRangeRet {A S : Type} (body : A -> S -> run (flow S))
  (xs : list A) (s : S) : run (flow S) :=
  match xs with
  | [] => Done (Continue s)
  | x :: xs' =>
      r ← body x s;
      match r with
      | Continue s' => forRangeRet body xs' s'
      | Return e => Done (Return e)
      end
  end.

(** An [xrr.Fields] variable: [None] is the nil map it starts as. *)
Definition fieldsSet (ers : option Fields) (name : string) (e : error)
  : option Fields :=
  Some (<[name := e]> (default ∅ ers)).

(** [len(ers)] *)
Definition fieldsLen (ers : option Fields) : nat := size (default ∅ ers).

(** Modelled from the spec: [Fields.Filter] drops the nil entries and
    gives nil when nothing is left.  The spec does not tell what it
    makes of an entry that is a Fields error again; such an entry is
    kept as it is here, so what is stated through this definition is
    stated of leaf errors and of the result being nil or not empty. *)
Definition Fields_Filter (ers : option Fields) : error :=
  let kept := filter (fun kv => is_Some kv.2) (default ∅ ers) in
  if Nat.eqb (size kept) 0 then None else Some (XrrFields kept).

(** Modelled from the spec: the type assertion [err.(xrr.Fielder)]
    succeeds on a Fields error and gives its entries. *)
Definition asFielder (e : Err) : option Fields :=
  match e with
  | XrrFields fs => Some fs
  | _ => None
  end.

(** The part of a string before the first comma:
    [strings.SplitN(s, ",", 2)[0]]. *)
Fixpoint beforeComma (s : string) : string :=
  match s with
  | EmptyString => EmptyString
  | String c rest =>
      if Ascii.eqb c ","%char then EmptyString else String c (beforeComma rest)
  end.

(** [tag.Get(key)] on a parsed struct tag. *)
Fixpoint Tag_Get (tag : list (string * string)) (key : string) : string :=
  match tag with
  | [] => ""
  | (k, v) :: rest => if String.eqb k key then v else Tag_Get rest key
  end.

(** Replaces the name of the dynamic type: the conversion between types
    with identical underlying types. *)
Definition setName (nm : tyname) (v : value) : value :=
  match v with
  | VNil => VNil
  | VBool _ b => VBool nm b
  | VInt _ k n => VInt nm k n
  | VUint _ k n => VUint nm k n
  | VFloat _ k n => VFloat nm k n
  | VComplex _ k re im => VComplex nm k re im
  | VString _ s => VString nm s
  | VUnsafePointer _ a => VUnsafePointer nm a
  | VChan _ d e c => VChan nm d e c
  | VFunc _ s f => VFunc nm s f
  | VPtr _ e p => VPtr nm e p
  | VSlice _ e xs => VSlice nm e xs
  | VArray _ e xs => VArray nm e xs
  | VMap _ k e m => VMap nm k e m
  | VStruct _ s fs => VStruct nm s fs
  end.

Definition nameOf (t : GoType) : tyname :=
  match t with
  | TNamed n _ => Some n
  | _ => None
  end.

(** The [Validator] interface type. *)
Definition validatableType : GoType :=
  TNamed "verax.Validator" (TInterface "interface { Validate() error }").

Inductive loopExit : Type :=
| Skipped (i : nat)
| Failed (i : nat) (e : Err)
| Passed.

(** [s, ok := rule.(skipRule); ok && bool(s)] *)
Definition isActiveSkip (rule : Rule) : bool :=
  match rule with
  | skipRule s => s
  | ruleOf _ => false
  end.

Section Engine.
Context (E : Env).

(** *** Type assertions *)

(** [v.(Validator)], answered with the result of [Validate()]. *)
Definition asValidator (v : value) : option (run error) :=
  t ← typeOf v; m ← mValidate E t; Some (m v).

(** [v.(WithValidator)], answered with its [ValidateWith]. *)
Definition asWithValidator (v : value) : option (Rule -> run error) :=
  t ← typeOf v; m ← mValidateWith E t; Some (m v).

(** [v.(interface{ IsZero() bool })], answered with [IsZero()]. *)
Definition asIsZeroer (v : value) : option bool :=
  t ← typeOf v; m ← mIsZero E t; Some (m v).

(** [v.(driver.Valuer)], answered with [Value()]. *)
Definition asValuer (v : value) : option (value * error) :=
  t ← typeOf v; m ← mValue E t; Some (m v).

(** [t.Implements(u)] for an interface type [u]. *)
Definition Type_Implements (t u : GoType) : bool :=
  bool_decide (kindOf u = KInterface) && implements E u t.

(** [t.AssignableTo(u)] *)
Definition AssignableTo (t u : GoType) : bool :=
  directlyAssignable u t || Type_Implements t u.

(** *** Maps through reflect *)

(** [rv.MapKeys()], in the order this run iterates the map. *)
Definition Value_MapKeys (rv : Value) : list Value :=
  match rv with
  | Val _ (VMap _ kt _ (Some m)) => (fun kv => Val kt kv.1) <$> m
  | _ => []
  end.

(** The entry of a key already converted to the key type. *)
Fixpoint mapLookup (m : list (value * value)) (k : value) : option value :=
  match m with
  | [] => None
  | (k', x) :: rest => if any_eq k' k then Some x else mapLookup rest k
  end.

(** [rv.MapIndex(key)]: the zero Value when the key is absent; reflect
    panics when the key is not assignable to the key type, on a zero
    key and when [rv] is no map. *)
Definition Value_MapIndex (rv key : Value) : run Value :=
  match rv, key with
  | Val _ (VMap _ kt et m), Val tk k =>
      if AssignableTo tk kt then
        let k' := if bool_decide (kindOf kt = KInterface) then k
                  else setName (nameOf kt) k in
        Done (match mapLookup (default [] m) k' with
              | Some x => Val et x
              | None => Invalid
              end)
      else Panic
  | _, _ => Panic
  end.

(** *** xrr *)

(** Modelled from the spec: [xrr.GetCode] is the machine code an error
    carries. *)
Definition GetCode (e : Err) : string :=
  match e with
  | XrrNew _ code => code
  | XrrWrap _ code => code
  | XrrFields fs => fieldsCode E fs
  | ErrFieldNotFound _ => ECInternal
  | ErrFieldPointer _ => ECInternal
  | ErrOther _ (Some code) => code
  | ErrOther _ None => ECGeneric
  end.

(** [err.Error()] *)
Fixpoint Err_Error (e : Err) : string :=
  match e with
  | XrrNew msg _ => msg
  | XrrWrap inner _ => Err_Error inner
  | XrrFields fs => fieldsText E fs
  | ErrFieldNotFound i =>
      "the field #" ++ pretty i ++ " cannot be found in the struct"
  | ErrFieldPointer i =>
      "field #" ++ pretty i ++ " must be specified as a pointer"
  | ErrOther msg _ => msg
  end.

(** *** helpers.go *)

(** [setCode] wraps a non-nil error with the given code.  It returns nil
    if err is nil and the same error if the code is empty. *)
Definition setCode (err : error) (code : string) : error :=
  match err with
  | None => None
  | Some e =>
      if bool_decide (code = "") then err
      else if bool_decide (GetCode e = code) then err
      else Some (XrrWrap e code)
  end.

(** [IsNil] checks whether the provided value is actual nil or wrapped
    nil; it returns [(isNil, isWrapped)]. *)
Definition IsNil (v : value) : bool * bool :=
  match v with
  | VNil => (true, false)
  | _ =>
      let val := ValueOf v in
      let kind := Value_Kind val in
      if (Kind_num KChan <=? Kind_num kind)
         && (Kind_num kind <=? Kind_num KSlice)
      then (Value_IsNil val, true)
      else (false, false)
  end.

(** [IsEmpty] checks if a value is empty.  A [Value()] method may hand
    back any value at all, so the recursion is bounded by [fuel]; [None]
    is the bound being reached. *)
Fixpoint IsEmpty (fuel : nat) (v : value) : option bool :=
  match fuel with
  | O => None
  | S fuel' =>
      if (IsNil v).1 then Some true
      else match asIsZeroer v with
      | Some z => Some z
      | None =>
          let viaValue :=
            match asValuer v with
            | Some (vr, None) => Some vr
            | _ => None
            end in
          match viaValue with
          | Some vr => IsEmpty fuel' vr
          | None =>
              let val := ValueOf v in
              match Value_Kind val with
              | KString | KArray | KMap | KSlice =>
                  Some (Nat.eqb (Value_Len val) 0)
              | KInterface | KPtr =>
                  if Value_IsNil val then Some true
                  else match Value_Elem val with
                       | Val _ x => IsEmpty fuel' x
                       | Invalid => None
                       end
              | KStruct => Some (Nat.eqb (Value_NumField val) 0)
              | _ => Some (Value_IsZero val)
              end
          end
      end
  end.

(** [Indirect] dereferences the given value if it is a pointer or
    interface, returning the underlying value; a [driver.Valuer] gives
    the result of its [Value] method. *)
Fixpoint Indirect (v : value) : value :=
  if (IsNil v).1 then VNil
  else
    let viaValue :=
      match asValuer v with
      | Some (vr, None) => Some vr
      | _ => None
      end in
    match viaValue with
    | Some vr => vr
    | None =>
        match v with
        | VPtr _ _ (Some (_, x)) => Indirect x
        | _ => v
        end
    end.

(** [getInterface] returns interface for given reflection value. *)
Definition getInterface (val : Value) : run value :=
  match Value_Kind val with
  | KPtr | KInterface =>
      if Value_IsNil val then Done VNil else Value_Interface val
  | _ => Value_Interface val
  end.

(** [mapErrKey] returns a string to use as a key for a map error. *)
Definition mapErrKey (val : Value) : string :=
  match Value_Kind val with
  | KPtr | KInterface =>
      if Value_IsNil val then "" else Value_String (Value_Elem val)
  | KInt | KInt8 | KInt16 | KInt32 | KInt64 => pretty (Value_Int val)
  | KUint | KUint8 | KUint16 | KUint32 | KUint64 => pretty (Value_Uint val)
  | _ => Value_String val
  end.

(** [strconv.Itoa] *)
Definition Itoa (i : nat) : string := pretty i.

(** *** verax.go *)

(** The outcome of one rule of the sequence on [v]: a value with a
    [ValidateWith] method intercepts the rule. *)
Definition applyRule (v : value) (rule : Rule) : run error :=
  match asWithValidator v with
  | Some red => red rule
  | None => Rule_Validate rule v
  end.

(** The loop of [Validate] over the rules, with the index of the rule
    it stopped at. *)
Fixpoint rulesLoop (v : value) (i : nat) (rules : list Rule) : run loopExit :=
  match rules with
  | [] => Done Passed
  | rule :: rest =>
      if isActiveSkip rule then Done (Skipped i)
      else
        err ← applyRule v rule;
        match err with
        | Some e => Done (Failed i e)
        | None => rulesLoop v (S i) rest
        end
  end.

(** [rv.Type().Elem().Implements(validatableType)] *)
Definition elemIsValidatable (rv : Value) : bool :=
  match rv with
  | Val t _ =>
      match elemOf t with
      | Some e => Type_Implements e validatableType
      | None => false
      end
  | Invalid => false
  end.

(** [mv.(Validator).Validate()] where [mv] is not nil; the assertion
    panics on a value without the method. *)
Definition mustValidate (mv : value) : run error :=
  match asValidator mv with
  | Some result => result
  | None => Panic
  end.

(** [validateMap] validates a map of validatable elements. *)
Definition validateMap (rv : Value) : run error :=
  ers ← forRange (fun key (ers : option Fields) =>
           entry ← Value_MapIndex rv key;
           mv ← Value_Interface entry;
           match mv with
           | VNil => Done ers
           | _ =>
               err ← mustValidate mv;
               match err with
               | Some e =>
                   k ← Value_Interface key;
                   Done (fieldsSet ers (Sprintf_v E k) (Some e))
               | None => Done ers
               end
           end) (Value_MapKeys rv) None;
  if Nat.ltb 0 (fieldsLen ers) then Done (Some (XrrFields (default ∅ ers)))
  else Done None.

(** [validateSlice] validates a slice/array of validatable elements. *)
Definition validateSlice (rv : Value) : run error :=
  ers ← forRange (fun '(i, elem) (ers : option Fields) =>
           ev ← Value_Interface elem;
           match ev with
           | VNil => Done ers
           | _ =>
               err ← mustValidate ev;
               match err with
               | Some e => Done (fieldsSet ers (Itoa i) (Some e))
               | None => Done ers
               end
           end) (imap pair (Value_Elems rv)) None;
  if Nat.ltb 0 (fieldsLen ers) then Done (Some (XrrFields (default ∅ ers)))
  else Done None.

(** What [Validate] does once every rule has passed.  The last case is
    the call [Validate(rv.Elem().Interface())], whose empty rule list
    leaves only this part to run again. *)
Fixpoint validateValue (v : value) : run error :=
  let rv := ValueOf v in
  if (bool_decide (Value_Kind rv = KPtr)
      || bool_decide (Value_Kind rv = KInterface))
     && Value_IsNil rv
  then Done None
  else match asValidator v with
  | Some result => result
  | None =>
      match Value_Kind rv with
      | KMap => if elemIsValidatable rv then validateMap rv else Done None
      | KSlice | KArray =>
          if elemIsValidatable rv then validateSlice rv else Done None
      | KPtr | KInterface =>
          match v with
          | VPtr _ _ (Some (_, x)) => validateValue x
          | _ => Panic
          end
      | _ => Done None
      end
  end.

(** [Validate] checks the given value against the provided validation
    rules.  Returns nil if all rules pass, or the first validation error
    encountered.  Skips validation if one of the rules is [Skip]. *)
Definition Validate (v : value) (rules : list Rule) : run error :=
  exit ← rulesLoop v 0 rules;
  match exit with
  | Skipped _ => Done None
  | Failed _ e => Done (Some e)
  | Passed => validateValue v
  end.

(** [Set] groups multiple validation rules and is a [Rule]. *)
Definition Set_ (rg : list Rule) : Rule := ruleOf (fun v => Validate v rg).

(** [ValidateNamed] *)
Definition ValidateNamed (name : string) (v : value) (rules : list Rule)
  : run error :=
  err ← Rule_Validate (Set_ rules) v;
  Done (Fields_Filter (Some {[ name := err ]})).

End Engine.

(** ** each.go *)

(** [EachRule] is a validation rule that validates elements in a
    map/slice/array using the specified list of rules. *)
Record EachRule : Type := mkEachRule {
  each_rules : list Rule
}.

(** [Each] returns a validation rule that loops through an iterable. *)
Definition Each (rules : list Rule) : EachRule := mkEachRule rules.

(** The end shared by the aggregating loops:
    [if len(ers) > 0 { return ers }; return nil]. *)
Definition nonEmptyOrNil (ers : option Fields) : error :=
  if Nat.ltb 0 (fieldsLen ers) then Some (XrrFields (default ∅ ers))
  else None.

(** ** map.go *)

(** MapRule sentinel errors. *)
Definition ErrNotMapPtr : Err :=
  XrrNew "only a map can be validated" ECInternal.
Definition ErrInvKeyType : Err := XrrNew "key not the correct type" ECInternal.
Definition ErrKeyMissing : Err :=
  XrrNew "required key is missing" ECMapKeyMissing.
Definition ErrKeyUnexpected : Err :=
  XrrNew "key not expected" ECMapKeyUnexpected.

(** [KeyRules] represents a rule set associated with a map key. *)
Record KeyRules : Type := mkKeyRules {
  kr_key : value;
  kr_optional : bool;
  kr_rules : list Rule
}.

(** [MapRule] represents a rule set associated with a map.  [mr_keys]
    is the Go map [keys] as the list of its entries, in the order this
    run ranges over it. *)
Record MapRule : Type := mkMapRule {
  mr_keys : list KeyRules;
  mr_allowUnknown : bool
}.

(** [Key] specifies a map key and the corresponding validation rules. *)
Definition Key (key : value) (rules : list Rule) : KeyRules :=
  mkKeyRules key false rules.

(** [Optional] configures the rule to ignore the key if missing. *)
Definition KeyRules_Optional (r : KeyRules) : KeyRules :=
  mkKeyRules (kr_key r) true (kr_rules r).

(** [RequiredWhen] sets key as required when the condition is true. *)
Definition KeyRules_RequiredWhen (r : KeyRules) (condition : bool) : KeyRules :=
  mkKeyRules (kr_key r) (negb condition) (kr_rules r).

(** [kr[k.key] = k]: the binding replaces one with an equal key. *)
Fixpoint keysStore (kr : list KeyRules) (k : KeyRules) : list KeyRules :=
  match kr with
  | [] => [k]
  | k' :: rest =>
      if any_eq (kr_key k') (kr_key k) then k :: rest
      else k' :: keysStore rest k
  end.

(** [Map] returns a validation rule that checks the keys and values of
    a map.  The entries stand in the order the bindings were given,
    which is one of the orders a run may range over the Go map in. *)
Definition Map (keys : list KeyRules) : MapRule :=
  mkMapRule (foldl keysStore [] keys) false.

(** [AllowUnknown] configures the rule to ignore unknown keys. *)
Definition MapRule_AllowUnknown (r : MapRule) : MapRule :=
  mkMapRule (mr_keys r) true.

(** [delete(extraKeys, key)] *)
Definition keysDelete (extraKeys : list value) (key : value) : list value :=
  filter (fun k => any_eq k key = false) extraKeys.

(** ** struct.go *)

(** [ErrNotStructPtr] is the error that a struct being validated is not
    specified as a pointer. *)
Definition ErrNotStructPtr : Err :=
  XrrNew "only a pointer to a struct can be validated" ECInternal.

(** [FieldRules] represents a rule set associated with a struct field. *)
Record FieldRules : Type := mkFieldRules {
  fr_fieldPtr : value;
  fr_tag : string;
  fr_rules : list Rule
}.

(** [Field] specifies a struct field and the corresponding validation
    rules. *)
Definition Field (fieldPtr : value) (rules : list Rule) : FieldRules :=
  mkFieldRules fieldPtr "" rules.

(** [Tag] sets a tag to use for the error field name. *)
Definition FieldRules_Tag (fr : FieldRules) (tag : string) : FieldRules :=
  mkFieldRules (fr_fieldPtr fr) tag (fr_rules fr).

(** [f.Elem().Type()], when [f] is a pointer that is not nil. *)
Definition pointeeType (f : Value) : option GoType :=
  match Value_Elem f with
  | Val e _ => Some e
  | Invalid => None
  end.

(** The body of the loop of [findStructField] for one field, stored at
    [addr] with content [x]; [find] searches a struct the field embeds.
    The type is compared only when the address matches:
    [f.Elem().Type()] is never asked of a nil [f], whose address 0 is no
    field's. *)
Definition lookAt (find : value -> option FieldDecl) (f : Value)
  (fld : FieldDecl * positive * value) : option FieldDecl :=
  let '(sf, addr, x) := fld in
  if (Value_Pointer f =? Z.pos addr)
     && bool_decide (Some (fd_type sf) = pointeeType f)
  then Some sf
  else if fd_anon sf then
    if bool_decide (kindOf (fd_type sf) = KPtr) then
      match x with
      | VPtr _ e (Some (_, y)) =>
          if bool_decide (kindOf e = KStruct) then find y else None
      | _ => None
      end
    else if bool_decide (kindOf (fd_type sf) = KStruct) then find x
    else None
  else None.

(** [for i := s.NumField() - 1; i >= 0; i--]: the fields are looked at
    from the last one down to the first, and the first answer wins. *)
Definition scanFields (look : FieldDecl * positive * value -> option FieldDecl)
  : list (FieldDecl * positive * value) -> option FieldDecl :=
  fix scan (fs : list (FieldDecl * positive * value)) : option FieldDecl :=
    match fs with
    | [] => None
    | fld :: rest =>
        match scan rest with
        | Some found => Some found
        | None => look fld
        end
    end.

(** [findStructField] looks for a field in the given struct.  The field
    being looked for should be a pointer to the actual struct field.  If
    found, the field info will be returned.  Otherwise, nil will be
    returned.  [s] is the content of the struct. *)
Fixpoint findStructField (s : value) (f : Value) : option FieldDecl :=
  match s with
  | VStruct _ _ fields =>
      scanFields (lookAt (fun x => findStructField x f) f) fields
  | _ => None
  end.

(** How deep pointers and struct fields nest in a value. *)
Fixpoint depth (v : value) : nat :=
  match v with
  | VPtr _ _ (Some (_, x)) => S (depth x)
  | VStruct _ _ fs => S (max_list_with (fun fld => depth fld.2) fs)
  | _ => 0%nat
  end.

Section Containers.
Context (E : Env).

(** [Validate] loops through the given iterable and calls the
    [Validate] function for each value. *)
Definition EachRule_Validate (r : EachRule) (v : value) : run error :=
  let vo := ValueOf v in
  match Value_Kind vo with
  | KMap =>
      ers ← forRange (fun k (ers : option Fields) =>
               entry ← Value_MapIndex E vo k;
               val ← getInterface entry;
               err ← Validate E val (each_rules r);
               match err with
               | Some e => Done (fieldsSet ers (mapErrKey k) (Some e))
               | None => Done ers
               end) (Value_MapKeys vo) None;
      Done (nonEmptyOrNil ers)
  | KSlice | KArray =>
      ers ← forRange (fun '(i, elem) (ers : option Fields) =>
               val ← getInterface elem;
               err ← Validate E val (each_rules r);
               match err with
               | Some e => Done (fieldsSet ers (Itoa i) (Some e))
               | None => Done ers
               end) (imap pair (Value_Elems vo)) None;
      Done (nonEmptyOrNil ers)
  | _ => Done (Some (XrrNew "must be an iterable" ECInvType))
  end.

(** [getErrorKeyName] returns the name that should be used to represent
    the validation error of a map key. *)
Definition getErrorKeyName (key : value) : string := Sprintf_v E key.

(** The error of one key binding: the body of the loop over [r.keys]
    up to [if err != nil]. *)
Definition keyError (val : Value) (kt : GoType) (kr : KeyRules) : run error :=
  let kv := ValueOf (kr_key kr) in
  tk ← Value_Type kv;
  if negb (AssignableTo E kt tk) then Done (Some ErrInvKeyType)
  else
    vv ← Value_MapIndex E val kv;
    if negb (Value_IsValid vv) then
      Done (if negb (kr_optional kr) then Some ErrKeyMissing else None)
    else
      x ← Value_Interface vv;
      Validate E x (kr_rules kr).

(** The body of the loop over [r.keys]; the loop's variables are [ers]
    and [extraKeys]. *)
Definition keyStep (allowUnknown : bool) (val : Value) (kt : GoType)
  (kr : KeyRules) (st : option Fields * list value)
  : run (flow (option Fields * list value)) :=
  let '(ers, extraKeys) := st in
  err ← keyError val kt kr;
  let extraKeys' :=
    if negb allowUnknown then keysDelete extraKeys (kr_key kr) else extraKeys in
  match err with
  | Some e =>
      if bool_decide (GetCode E e = ECInternal) then
        let msg := getErrorKeyName (kr_key kr) ++ ": " ++ Err_Error E e in
        Done (Return (Some (XrrNew msg ECInternal)))
      else
        Done (Continue (fieldsSet ers (getErrorKeyName (kr_key kr)) (Some e),
                        extraKeys'))
  | None => Done (Continue (ers, extraKeys'))
  end.

(** The keys the map holds, as [extraKeys] starts. *)
Definition mapKeysAny (val : Value) : list value :=
  match val with
  | Val _ (VMap _ _ _ (Some m)) => fst <$> m
  | _ => []
  end.

(** [for key := range extraKeys { ers[name] = ErrKeyUnexpected }] *)
Definition markUnexpected (ers : option Fields) (extraKeys : list value)
  : option Fields :=
  foldl (fun ers key =>
           fieldsSet ers (getErrorKeyName key) (Some ErrKeyUnexpected))
        (Some (default ∅ ers)) extraKeys.

(** [Validate] checks if the given value is valid or not.  Returns
    error with [ECInternal] code on unexpected errors, otherwise it
    returns [xrr.Fields] error. *)
Definition MapRule_Validate (r : MapRule) (v : value) : run error :=
  let val := ValueOf v in
  let val :=
    if bool_decide (Value_Kind val = KPtr) then Value_Elem val else val in
  if negb (bool_decide (Value_Kind val = KMap)) then Done (Some ErrNotMapPtr)
  else if Value_IsNil val then Done None
  else
    t ← Value_Type val;
    match keyOf t with
    | None => Panic
    | Some kt =>
        let extraKeys :=
          if negb (mr_allowUnknown r) then mapKeysAny val else [] in
        res ← forRangeRet (keyStep (mr_allowUnknown r) val kt) (mr_keys r)
                (None, extraKeys);
        match res with
        | Return e => Done e
        | Continue (ers, extraKeys) =>
            let ers :=
              if negb (mr_allowUnknown r) then markUnexpected ers extraKeys
              else ers in
            Done (nonEmptyOrNil ers)
        end
    end.

(** [getErrorFieldName] returns the name that should be used to
    represent the validation error of a struct field. *)
Definition getErrorFieldName (fieldTag : string) (f : FieldDecl) : string :=
  let fieldTag :=
    if bool_decide (fieldTag = "") then ErrorTag E else fieldTag in
  let tag := Tag_Get (fd_tag f) fieldTag in
  if negb (bool_decide (tag = "")) && negb (bool_decide (tag = "-"))
     && negb (bool_decide (beforeComma tag = ""))
  then beforeComma tag
  else fd_name f.

(** The body of the loop over the field bindings; the loop's variable
    is [ers].  [s] is the content of the struct. *)
Definition fieldStep (s : value) (ifr : nat * FieldRules) (ers : option Fields)
  : run (flow (option Fields)) :=
  let '(i, fr) := ifr in
  let fv := ValueOf (fr_fieldPtr fr) in
  if negb (bool_decide (Value_Kind fv = KPtr)) then
    Done (Return (Some (ErrFieldPointer i)))
  else
    match findStructField s fv with
    | None => Done (Return (Some (ErrFieldNotFound i)))
    | Some sf =>
        v ← Value_Interface (Value_Elem fv);
        err ← Validate E v (fr_rules fr);
        match err with
        | None => Done (Continue ers)
        | Some e =>
            if bool_decide (GetCode E e = ECInternal) then
              let msg := getErrorFieldName (fr_tag fr) sf ++ ": " ++ Err_Error E e in
              Done (Return (Some (XrrNew msg ECInternal)))
            else
              let ers := Some (default ∅ ers) in
              match (if fd_anon sf then asFielder e else None) with
              | Some es => Done (Continue (Some (es ∪ default ∅ ers)))
              | None =>
                  Done (Continue
                    (fieldsSet ers (getErrorFieldName (fr_tag fr) sf) (Some e)))
              end
        end
    end.

(** [ValidateStruct] validates a struct by checking the specified
    struct fields against the corresponding validation rules.  Returns
    error with [ECInternal] code on unexpected errors, otherwise it
    returns [xrr.Fields] error. *)
Definition ValidateStruct (v : value) (fields : list FieldRules) : run error :=
  let val := ValueOf v in
  if negb (bool_decide (Value_Kind val = KPtr))
     || (negb (Value_IsNil val)
         && negb (bool_decide (Value_Kind (Value_Elem val) = KStruct)))
  then Done (Some ErrNotStructPtr)
  else if Value_IsNil val then Done None
  else
    s ← Value_Interface (Value_Elem val);
    res ← forRangeRet (fieldStep s) (imap pair fields) None;
    match res with
    | Return e => Done e
    | Continue ers => Done (Fields_Filter ers)
    end.

End Containers.

(** ** More of helpers.go *)

(** [reflect.TypeOf([]byte(nil))] *)
Definition bytesType : GoType := TSlice (TBasic (BUint U8)).

(** [string(bs)] for the content of a byte slice. *)
Definition bytesToString (bs : list value) : string :=
  foldr (fun b s =>
           String (ascii_of_N (Z.to_N (Value_Uint (Val (TBasic (BUint U8)) b)))) s)
        EmptyString bs.

(** [%T]: the dynamic type of an [any]. *)
Definition fmtT (v : value) : string :=
  match typeOf v with
  | Some t => typeString t
  | None => "<nil>"
  end.

(** The content of a slice, nil or not. *)
Definition sliceContent (v : value) : option (list value) :=
  match v with
  | VSlice _ _ xs => xs
  | _ => None
  end.

(** [EnsureString] ensures the given value is a string.  If the value
    is a byte slice, it will be typecast into a string.  An error is
    returned otherwise. *)
Definition EnsureString (val : value) : run (string * error) :=
  let v := ValueOf val in
  if bool_decide (Value_Kind v = KString) then Done (Value_String v, None)
  else
    t ← Value_Type v;
    if bool_decide (t = bytesType)
    then Done (bytesToString (default [] (sliceContent val)), None)
    else Done ("", Some (XrrNew "must be either a string or byte slice"
                                ECInvType)).

(** [StringOrBytes] typecasts a value into a string or byte slice.
    Boolean flags are returned to indicate if the typecasting succeeds
    or not: [(isString, str, isBytes, bs)]. *)
Definition StringOrBytes (val : value)
  : run (bool * string * bool * option (list value)) :=
  let v := ValueOf val in
  if bool_decide (Value_Kind v = KString)
  then Done (true, Value_String v, false, None)
  else if bool_decide (Value_Kind v = KSlice)
  then
    t ← Value_Type v;
    if bool_decide (t = bytesType)
    then Done (false, "", true, sliceContent val)
    else Done (false, "", false, None)
  else Done (false, "", false, None).


(** [ToInt] converts the given value to an int64.  An error is returned
    for all incompatible types. *)
Definition ToInt (val : value) : Z * error :=
  let v := ValueOf val in
  match Value_Kind v with
  | KInt | KInt8 | KInt16 | KInt32 | KInt64 => (Value_Int v, None)
  | _ => (0, Some (XrrNew ("cannot convert " ++ fmtT val ++ " to int64")
                          ECInvType))
  end.

(** [ToUint] converts the given value to an uint64.  An error is
    returned for all incompatible types. *)
Definition ToUint (val : value) : Z * error :=
  let v := ValueOf val in
  match Value_Kind v with
  | KUint | KUint8 | KUint16 | KUint32 => (Value_Uint v, None)
  | KUint64 | KUintptr => (Value_Uint v, None)
  | _ => (0, Some (XrrNew ("cannot convert " ++ fmtT val ++ " to uint64")
                          ECInvType))
  end.

(** ** The rules built on the helpers *)

(** Error codes and errors of required.go, not_nil.go and absent.go. *)
Definition ECRequired : string := "ECRequired".
Definition ECReqNotEmpty : string := "ECReqNotEmpty".
Definition ECReqNotNil : string := "ECReqNotNil".
Definition ECReqNil : string := "ECReqNil".
Definition ECReqEmpty : string := "ECReqEmpty".
Definition ECUnkRule : string := "ECUnkRule".

Definition ErrReq : Err := XrrNew "cannot be blank" ECRequired.
Definition ErrReqNotEmpty : Err := XrrNew "cannot be blank" ECReqNotEmpty.
Definition ErrReqNotNil : Err := XrrNew "is required" ECReqNotNil.
Definition ErrReqNil : Err := XrrNew "must be blank" ECReqNil.
Definition ErrReqEmpty : Err := XrrNew "must be blank" ECReqEmpty.

(** [ErrUnkRule] represents unknown rule error. *)
Definition ErrUnkRule : Err := XrrNew "unknown rule" ECUnkRule.

(** [requiredRule] is a rule that checks if a value is not empty. *)
Record requiredRule : Type := mkRequiredRule {
  req_condition : bool;
  req_skipNil : bool;
  req_err : error
}.

(** [Required] checks if a value is not empty; [NotEmpty] differs from
    it in that it treats a nil pointer as valid. *)
Definition Required : requiredRule := mkRequiredRule true false (Some ErrReq).
Definition NotEmpty : requiredRule :=
  mkRequiredRule true true (Some ErrReqNotEmpty).

(** [notNilRule]: [NotNil] checks if a value is not nil. *)
Record notNilRule : Type := mkNotNilRule {
  nn_condition : bool;
  nn_err : error
}.

Definition NotNil : notNilRule := mkNotNilRule true (Some ErrReqNotNil).

(** [absentRule]: [Nil] checks if a value is nil, [Empty] checks if a
    not nil value is empty. *)
Record absentRule : Type := mkAbsentRule {
  abs_condition : bool;
  abs_skipNil : bool;
  abs_err : error
}.

Definition Nil : absentRule := mkAbsentRule true false (Some ErrReqNil).
Definition Empty : absentRule := mkAbsentRule true true (Some ErrReqEmpty).

(** [ErrorRule] is a rule that returns an error if the condition is
    true. *)
Record ErrorRule : Type := mkErrorRule {
  er_condition : bool;
  er_err : error
}.

(** [Error] returns the rule which fails with a given error. *)
Definition Error (err : error) : ErrorRule := mkErrorRule true err.

Definition ErrorRule_Validate (r : ErrorRule) (_ : value) : error :=
  if negb (er_condition r) then None else er_err r.

Definition ErrorRule_When (r : ErrorRule) (condition : bool) : ErrorRule :=
  mkErrorRule condition (er_err r).

(** [ByRule] is a validation rule that checks if a value passed to a
    validation function. *)
Record ByRule : Type := mkByRule {
  by_fn : value -> run error;
  by_condition : bool;
  by_err : error;
  by_code : string
}.

(** [By] wraps a [RuleFunc]. *)
Definition By (fn : value -> run error) : ByRule := mkByRule fn true None "".

(** [Noop] is a special validation rule that always passes. *)
Definition Noop : ByRule := By (fun _ => Done None).

Definition ByRule_When (r : ByRule) (condition : bool) : ByRule :=
  mkByRule (by_fn r) condition (by_err r) (by_code r).

Definition ByRule_Code (r : ByRule) (code : string) : ByRule :=
  mkByRule (by_fn r) (by_condition r) (by_err r) code.

Definition ByRule_Error (r : ByRule) (err : error) : ByRule :=
  mkByRule (by_fn r) (by_condition r) err (by_code r).

(** [WhenRule] is a validation rule that applies rules from [When] if
    the condition is met, or rules from [Else] otherwise. *)
Record WhenRule : Type := mkWhenRule {
  wh_condition : bool;
  wh_rules : list Rule;
  wh_elseRules : list Rule;
  wh_err : error;
  wh_code : string
}.



Definition WhenRule_Code (r : WhenRule) (code : string) : WhenRule :=
  mkWhenRule (wh_condition r) (wh_rules r) (wh_elseRules r) (wh_err r) code.

Definition WhenRule_Error (r : WhenRule) (err : error) : WhenRule :=
  mkWhenRule (wh_condition r) (wh_rules r) (wh_elseRules r) err (wh_code r).

(** [r.keys[key]] of a [MapRule], for a key that is comparable (Go
    panics on a key that cannot be hashed, a slice say). *)
Fixpoint keysFind (keys : list KeyRules) (key : value) : option KeyRules :=
  match keys with
  | [] => None
  | kr :: rest => if any_eq (kr_key kr) key then Some kr else keysFind rest key
  end.

(** [IsOptional] returns true if the given map key is optional.  It
    will return true for keys that are not defined in the map. *)
Definition MapRule_IsOptional (r : MapRule) (key : value) : bool :=
  match keysFind (mr_keys r) key with
  | Some kr => kr_optional kr
  | None => true
  end.

(** [IsDefined] returns true if the given map key is defined. *)
Definition MapRule_IsDefined (r : MapRule) (key : value) : bool :=
  match keysFind (mr_keys r) key with
  | Some _ => true
  | None => false
  end.

Section Rules.
Context (E : Env).

(** [requiredRule.Validate].  It calls [IsEmpty], so it takes its
    [fuel]; [None] is the bound being reached. *)
Definition requiredRule_Validate (fuel : nat) (r : requiredRule) (v : value)
  : option error :=
  if negb (req_condition r) then Some None
  else
    let isNil := (IsNil v).1 in
    if req_skipNil r && isNil then Some None
    else
      empty ← IsEmpty E fuel v;
      Some (if empty : bool then req_err r else None).

Definition requiredRule_When (r : requiredRule) (condition : bool)
  : requiredRule :=
  mkRequiredRule condition (req_skipNil r) (req_err r).

Definition requiredRule_Code (r : requiredRule) (code : string) : requiredRule :=
  mkRequiredRule (req_condition r) (req_skipNil r) (setCode E (req_err r) code).

Definition requiredRule_Error (r : requiredRule) (err : error) : requiredRule :=
  mkRequiredRule (req_condition r) (req_skipNil r) err.

(** [notNilRule.Validate] *)
Definition notNilRule_Validate (r : notNilRule) (v : value) : error :=
  if negb (nn_condition r) then None
  else if (IsNil v).1 then nn_err r
  else None.

(** [absentRule.Validate]: [IsEmpty] is asked only of a value that is
    not nil, and only when [skipNil] is set. *)
Definition absentRule_Validate (fuel : nat) (r : absentRule) (v : value)
  : option error :=
  if negb (abs_condition r) then Some None
  else
    let isNil := (IsNil v).1 in
    if isNil then Some None
    else if negb (abs_skipNil r) then Some (abs_err r)
    else
      empty ← IsEmpty E fuel v;
      Some (if empty : bool then None else abs_err r).

Definition ErrorRule_Code (r : ErrorRule) (code : string) : ErrorRule :=
  mkErrorRule (er_condition r) (setCode E (er_err r) code).

(** [ByRule.Validate] *)
Definition ByRule_Validate (r : ByRule) (v : value) : run error :=
  if negb (by_condition r) then Done None
  else
    err ← by_fn r v;
    match err with
    | Some e =>
        let err := match by_err r with
                   | Some custom => Some custom
                   | None => Some e
                   end in
        Done (setCode E err (by_code r))
    | None => Done None
    end.


(** *** The registry of named rules

    [Named] is a Go map from names to rules; a [Rule] stored in it may
    be the nil interface, [None] here. *)

(** [NewNamed] returns new instance of Names. *)
Definition NewNamed : gmap string (option Rule) := ∅.

(** [Set] sets named rule: the map is updated in place and returned. *)
Definition Named_Set (n : gmap string (option Rule)) (name : string)
  (rule : option Rule) : gmap string (option Rule) :=
  <[name := rule]> n.

(** [Get] returns the named rule or nil if it doesn't exist. *)
Definition Named_Get (n : gmap string (option Rule)) (name : string)
  : option Rule :=
  match n !! name with
  | Some rule => rule
  | None => None
  end.

(** [GetOrError] returns the named rule; when it doesn't exist, it
    returns [Error] rule with [ErrUnkRule] error. *)
Definition Named_GetOrError (n : gmap string (option Rule)) (name : string)
  : option Rule :=
  match Named_Get n name with
  | Some r => Some r
  | None => Some (ruleOf (fun v => Done (ErrorRule_Validate
                                          (Error (Some ErrUnkRule)) v)))
  end.

(** [GetOrNoop] returns the named rule or [Noop] rule if it doesn't
    exist. *)
Definition Named_GetOrNoop (n : gmap string (option Rule)) (name : string)
  : option Rule :=
  match n !! name with
  | Some rule => rule
  | None => Some (ruleOf (ByRule_Validate Noop))
  end.

End Rules.

(** ** A small program to run the engine on

    A program without methods, whose only interface is the empty one,
    and the rules and values the examples below use. *)
Module Sample.

Definition tInt : GoType := TBasic (BInt I0).
Definition tString : GoType := TBasic BString.

(** The type [any]. *)
Definition tAny : GoType := TInterface "interface {}".

(** [%v] of the values the examples format. *)
Definition fmt (v : value) : string :=
  match v with
  | VNil => "<nil>"
  | VBool _ true => "true"
  | VBool _ false => "false"
  | VInt _ _ n | VUint _ _ n => pretty n
  | VString _ s => s
  | _ => "?"
  end.

Definition env : Env :=
  mkEnv "json"
        (fun _ => None) (fun _ => None) (fun _ => None) (fun _ => None)
        (fun T _ => bool_decide (T = tAny))
        fmt
        (fun _ => "validation failed")
        (fun _ => "ECFields").

Definition int (n : Z) : value := VInt None I0 n.
Definition str (s : string) : value := VString None s.

(** [&x] for an [int] stored at [addr]. *)
Definition intPtr (addr : positive) (n : Z) : value :=
  VPtr None tInt (Some (addr, int n)).

Definition errMust : Err := XrrNew "must be an int" "ECMustInt".
Definition errInternal : Err := XrrNew "internal error" ECInternal.

(** A rule that always passes, one that always fails, and one that
    accepts exactly the values whose dynamic type is an integer type. *)
Definition pass : Rule := ruleOf (fun _ => Done None).
Definition failWith (e : Err) : Rule := ruleOf (fun _ => Done (Some e)).
Definition onlyInt : Rule :=
  ruleOf (fun v => match v with
                   | VInt _ _ _ => Done None
                   | _ => Done (Some errMust)
                   end).

(** [struct { A int `json:"a"`; B string }] at address 16, with [A] at
    16 and [B] at 24. *)
Definition declA : FieldDecl :=
  mkFieldDecl "A" tInt false [("json", "a,omitempty")].
Definition declB : FieldDecl := mkFieldDecl "B" tString false [].
Definition tPlanet : GoType :=
  TNamed "Planet" (TStruct "struct { A int; B string }").
Definition planet : value :=
  VStruct (Some "Planet") "struct { A int; B string }"
    [(declA, 16%positive, int 7); (declB, 24%positive, str "")].
Definition planetPtr : value := VPtr None tPlanet (Some (16%positive, planet)).
Definition ptrA : value := VPtr None tInt (Some (16%positive, int 7)).
Definition ptrB : value := VPtr None tString (Some (24%positive, str "")).

(** A pointer to an [int] that is no field of [planet]. *)
Definition ptrElsewhere : value := intPtr 4096 1.

(** A [Planet] whose fields hold their zero values. *)
Definition zeroPlanet : value :=
  VStruct (Some "Planet") "struct { A int; B string }"
    [(declA, 16%positive, int 0); (declB, 24%positive, str "")].

(** A nil [*int] and a nil [map[string]int], bare and behind a pointer. *)
Definition nilIntPtr : value := VPtr None tInt None.
Definition tMapStrInt : GoType := TMap tString tInt.
Definition nilMap : value := VMap None tString tInt None.
Definition nilMapPtr : value :=
  VPtr None tMapStrInt (Some (64%positive, nilMap)).

(** [[]*int{&x}] with [x = 5], and [[]any{5, nil, &x}]. *)
Definition ptrSlice : value := VSlice None (TPtr tInt) (Some [intPtr 8 5]).
Definition anySlice : value :=
  VSlice None tAny (Some [int 5; VNil; intPtr 8 5]).

(** A [map[any]int] that is empty and not nil, a [map[string]int] with
    the key ["name"], and the binding of the key ["x"]. *)
Definition anyKeyMap : value := VMap None tAny tInt (Some []).
Definition nameMap : value :=
  VMap None tString tInt (Some [(str "name", int 1)]).
Definition keyX : KeyRules := Key (str "x") [pass].


(** [type Model struct { N int }] with the method
    [func (m Model) Validate() error], which wants [N] not to be zero;
    the method set of [*Model] has it too, and calling it through a nil
    pointer panics. *)
Definition declN : FieldDecl := mkFieldDecl "N" tInt false [].
Definition tModel : GoType := TNamed "Model" (TStruct "struct { N int }").
Definition model (addr : positive) (n : Z) : value :=
  VStruct (Some "Model") "struct { N int }" [(declN, addr, int n)].
Definition errZero : Err := XrrNew "N must not be zero" "ECZero".
Definition Model_Validate (m : value) : run error :=
  match m with
  | VStruct _ _ [(_, _, VInt _ _ n)]
  | VPtr _ _ (Some (_, VStruct _ _ [(_, _, VInt _ _ n)])) =>
      Done (if n =? 0 then Some errZero else None)
  | _ => Panic
  end.

(** The program with [Model] in it. *)
Definition envModels : Env :=
  mkEnv "json"
        (fun T => if bool_decide (T = tModel) || bool_decide (T = TPtr tModel)
                  then Some Model_Validate else None)
        (fun _ => None) (fun _ => None) (fun _ => None)
        (fun T V => bool_decide (T = tAny)
                    || (bool_decide (T = validatableType)
                        && (bool_decide (V = tModel)
                            || bool_decide (V = TPtr tModel))))
        fmt
        (fun _ => "validation failed")
        (fun _ => "ECFields").

(** [[]Model{{1}, {0}, {0}}] and [map[string]Model{"a": {0}, "b": {2}}]. *)
Definition modelSlice : value :=
  VSlice None tModel (Some [model 32 1; model 40 0; model 48 0]).
Definition modelMap : value :=
  VMap None tString tModel (Some [(str "a", model 56 0); (str "b", model 64 2)]).

(** [type Text string] with the method
    [func (t Text) Value() (driver.Value, error) { return t, nil }],
    and the program with [Text] in it. *)
Definition tText : GoType := TNamed "Text" tString.
Definition text (s : string) : value := VString (Some "Text") s.
Definition envText : Env :=
  mkEnv "json"
        (fun _ => None) (fun _ => None) (fun _ => None)
        (fun T => if bool_decide (T = tText)
                  then Some (fun v => (v, None)) else None)
        (fun T _ => bool_decide (T = tAny))
        fmt
        (fun _ => "validation failed")
        (fun _ => "ECFields").

(** [map[bool]int{true: 1, false: 2}] *)
Definition tBool : GoType := TBasic BBool.
Definition boolMap : value :=
  VMap None tBool tInt
    (Some [(VBool None true, int 1); (VBool None false, int 2)]).

(** [map[string]int{"name": 1, "extra": 2}] *)
Definition extraMap : value :=
  VMap None tString tInt (Some [(str "name", int 1); (str "extra", int 2)]).

(** [type ModelVW struct { value string }] of the repository's tests,
    with [func (m *ModelVW) ValidateWith(rule Rule) error]: it returns
    [ErrTst] when the value is ["too_long"] and what the rule returns
    for the value otherwise.  [modelVW s] is [&ModelVW{s}]. *)
Definition errTst : Err := XrrNew "tst msg" "ETstCode".
Definition declValue : FieldDecl := mkFieldDecl "value" tString false [].
Definition tModelVW : GoType :=
  TNamed "ModelVW" (TStruct "struct { value string }").
Definition modelVW (s : string) : value :=
  VPtr None tModelVW
    (Some (72%positive,
           VStruct (Some "ModelVW") "struct { value string }"
             [(declValue, 72%positive, str s)])).
Definition ModelVW_ValidateWith (m : value) (rule : Rule) : run error :=
  match m with
  | VPtr _ _ (Some (_, VStruct _ _ [(_, _, VString nm s)])) =>
      if String.eqb s "too_long" then Done (Some errTst)
      else Rule_Validate rule (VString nm s)
  | _ => Panic
  end.

(** The program with [ModelVW] in it. *)
Definition envVW : Env :=
  mkEnv "json"
        (fun _ => None)
        (fun T => if bool_decide (T = TPtr tModelVW)
                  then Some ModelVW_ValidateWith else None)
        (fun _ => None) (fun _ => None)
        (fun T _ => bool_decide (T = tAny))
        fmt
        (fun _ => "validation failed")
        (fun _ => "ECFields").

End Sample.

(** ** Vocabulary of the properties *)

(** The kinds whose values can be nil. *)
Definition isReferenceLike (k : Kind) : bool :=
  match k with
  | KChan | KFunc | KInterface | KMap | KPtr | KSlice => true
  | _ => false
  end.

(** [v] holds a nil instance of a reference-like kind: a typed nil. *)
Definition isWrappedNil (v : value) : bool :=
  match v with
  | VPtr _ _ None | VSlice _ _ None | VMap _ _ _ None
  | VChan _ _ _ None | VFunc _ _ None => true
  | _ => false
  end.

(** What [Each] hands to the rules for an element stored as [x] in a
    container of declared element type [e]: a nil pointer becomes the
    nil interface, and so does a nil interface, whose content is [VNil]
    already; anything else is handed over as it is, a pointer as the
    pointer. *)
Definition handed (e : GoType) (x : value) : value :=
  match kindOf e, x with
  | KPtr, VPtr _ _ None => VNil
  | _, _ => x
  end.

(** The variable [ers] after a loop has seen these per-path outcomes in
    this order: every error is stored under its path, a later one over
    an earlier one of the same path. *)
Definition collect (ers : option Fields) (outcomes : list (string * error))
  : option Fields :=
  foldl (fun ers out =>
           match out.2 with
           | Some e => fieldsSet ers out.1 (Some e)
           | None => ers
           end) ers outcomes.

(** [res] aggregates the per-path outcomes: nil when no path failed,
    otherwise a Fields error that is not empty, whose every entry is the
    error of a failed path of that name and which has an entry for every
    failed path. *)
Definition aggregates (outcomes : list (string * error)) (res : error) : Prop :=
  match res with
  | None => forall name err, (name, err) ∈ outcomes -> err = None
  | Some (XrrFields ers) =>
      ers <> ∅
      /\ (forall name x, ers !! name = Some x ->
            exists e, x = Some e /\ (name, Some e) ∈ outcomes)
      /\ (forall name e, (name, Some e) ∈ outcomes -> is_Some (ers !! name))
  | Some _ => False
  end.

(** A declared field of the struct [s] stands at the address [ptr] with
    the type [ty], searching into the anonymous fields that are structs
    or pointers to structs. *)
Inductive FieldAt (ptr : Z) (ty : option GoType) : value -> FieldDecl -> Prop :=
| FieldAt_here nm sig fs sf addr x :
    (sf, addr, x) ∈ fs ->
    ptr = Z.pos addr ->
    ty = Some (fd_type sf) ->
    FieldAt ptr ty (VStruct nm sig fs) sf
| FieldAt_embedded nm sig fs sf addr x found :
    (sf, addr, x) ∈ fs ->
    fd_anon sf = true ->
    kindOf (fd_type sf) = KStruct ->
    FieldAt ptr ty x found ->
    FieldAt ptr ty (VStruct nm sig fs) found
| FieldAt_embedded_ptr nm sig fs sf addr pnm e a y found :
    (sf, addr, VPtr pnm e (Some (a, y))) ∈ fs ->
    fd_anon sf = true ->
    kindOf (fd_type sf) = KPtr ->
    kindOf e = KStruct ->
    FieldAt ptr ty y found ->
    FieldAt ptr ty (VStruct nm sig fs) found.

(** The pointer a binding supplies corresponds to no declared field. *)
Definition noFieldAt (s : value) (fieldPtr : value) : Prop :=
  forall sf,
    ~ FieldAt (Value_Pointer (ValueOf fieldPtr)) (pointeeType (ValueOf fieldPtr))
        s sf.

(** A binding that does not stop the resolution: it supplies a pointer
    to a declared field, and validating the field returns nil or an
    error whose code is not [ECInternal]. *)
Definition bindingPasses (E : Env) (s : value) (fr : FieldRules) : Prop :=
  Value_Kind (ValueOf (fr_fieldPtr fr)) = KPtr
  /\ is_Some (findStructField s (ValueOf (fr_fieldPtr fr)))
  /\ exists t x err,
       Value_Elem (ValueOf (fr_fieldPtr fr)) = Val t x
       /\ Validate E x (fr_rules fr) = Done err
       /\ forall e, err = Some e -> GetCode E e <> ECInternal.

(** The kinds of map keys [mapErrKey] names by their content: the
    signed integers, the unsigned ones up to [uint64], and strings. *)
Definition namedByContent (k : Kind) : bool :=
  match k with
  | KInt | KInt8 | KInt16 | KInt32 | KInt64
  | KUint | KUint8 | KUint16 | KUint32 | KUint64
  | KString => true
  | _ => false
  end.

(** The kinds of map keys [mapErrKey] names by their type alone. *)
Definition namedByType (k : Kind) : bool :=
  negb (namedByContent k)
  && negb (bool_decide (k = KPtr)) && negb (bool_decide (k = KInterface)).

(** The law of the skip marker for a value [v], [answer] being what
    one rule applied to [v] yields.  The rule list holds the active
    skip marker at position [k = length pre].  If every rule before it
    that is not an active skip marker itself yields nil, [Validate]
    returns nil whatever follows the marker: the loop leaves at a skip
    marker no later than [k], so no later rule and nothing of what
    [Validate] does after its loop runs.  If a rule before the marker
    yields an error, all rules ahead of it having yielded nil and none
    of them being an active skip marker, [Validate] returns that error
    and the loop leaves there, before the marker. *)
Definition skipMarkerLaw (E : Env) (v : value) (answer : Rule -> run error)
  (pre post : list Rule) : Prop :=
  ((forall r, r ∈ pre -> isActiveSkip r = false -> answer r = Done None) ->
     Validate E v (pre ++ Skip :: post) = Done None
     /\ exists j, (j <= length pre)%nat
                  /\ rulesLoop E v 0 (pre ++ Skip :: post) = Done (Skipped j))
  /\ (forall (ok rest : list Rule) (rule : Rule) (e : Err),
       pre = (ok ++ rule :: rest)%list ->
       (forall r, r ∈ ok -> isActiveSkip r = false /\ answer r = Done None) ->
       isActiveSkip rule = false ->
       answer rule = Done (Some e) ->
       Validate E v (pre ++ Skip :: post) = Done (Some e)
       /\ rulesLoop E v 0 (pre ++ Skip :: post) = Done (Failed (length ok) e)
       /\ (length ok < length pre)%nat).

(** The number of pointers to follow from a value to what is no
    pointer any more, or to a nil pointer. *)
Fixpoint hops (v : value) : nat :=
  match v with
  | VPtr _ _ (Some (_, x)) => S (hops x)
  | _ => 0%nat
  end.

(** The keys for which Go's [==] is plain equality of what the model
    holds: booleans, integers and strings. *)
Definition plainKey (v : value) : bool :=
  match v with
  | VBool _ _ | VInt _ _ _ | VUint _ _ _ | VString _ _ => true
  | _ => false
  end.

(** The last of the bindings, in the order they were given to [Map],
    whose key equals [key]. *)
Fixpoint lastBinding (keys : list KeyRules) (key : value) : option KeyRules :=
  match keys with
  | [] => None
  | kr :: rest =>
      match lastBinding rest key with
      | Some found => Some found
      | None => if any_eq (kr_key kr) key then Some kr else None
      end
  end.

(** * Properties *)

Section Properties.
Context (E : Env).

Implicit Types (v : value) (rules : list Rule) (e : Err) (err : error).

(** ** Loops *)

Lemma forRange_app {A S : Type} (body : A -> S -> run S) (xs ys : list A) (s : S) :
  forRange body (xs ++ ys) s = s' ← forRange body xs s; forRange body ys s'.
Proof.
  revert s. induction xs as [|x xs IH]; intros s; simpl; [done|].
  destruct (body x s) as [s'|]; simpl; [apply IH|done].
Qed.

Lemma forRangeRet_app {A S : Type} (body : A -> S -> run (flow S))
  (xs ys : list A) (s : S) :
  forRangeRet body (xs ++ ys) s =
    r ← forRangeRet body xs s;
    match r with
    | Continue s' => forRangeRet body ys s'
    | Return e => Done (Return e)
    end.
Proof.
  revert s. induction xs as [|x xs IH]; intros s; simpl.
  - by destruct (forRangeRet body ys s) as [[?|?]|].
  - destruct (body x s) as [[s'|e]|]; simpl; [apply IH|done|done].
Qed.

(** ** C9: setCode *)

Lemma GetCode_wrap e (code : string) : GetCode E (XrrWrap e code) = code.
Proof. reflexivity. Qed.

(** C9.  [setCode] wraps the current error with a (non-empty) code
    unless the error already carries that exact code, in which case the
    same error is returned unchanged; it is idempotent in the code
    argument, leaves the error alone for the empty code, and maps nil
    to nil. *)
Theorem C9_setCode :
  (forall e (code : string),
      code <> "" -> GetCode E e <> code ->
      setCode E (Some e) code = Some (XrrWrap e code))
  /\ (forall e (code : string),
      GetCode E e = code -> setCode E (Some e) code = Some e)
  /\ (forall err (code : string),
      setCode E (setCode E err code) code = setCode E err code)
  /\ (forall err, setCode E err "" = err)
  /\ (forall code : string, setCode E None code = None).
Proof.
  split; [|split; [|split; [|split]]].
  - intros e code Hne Hcode. unfold setCode.
    rewrite !bool_decide_eq_false_2; done.
  - intros e code Hcode. unfold setCode.
    case_bool_decide; [done|]. by rewrite bool_decide_eq_true_2.
  - intros [e|] code; [|done]. unfold setCode.
    destruct (bool_decide (code = "")) eqn:Hempty; simpl;
      rewrite ?Hempty; [done|].
    destruct (bool_decide (GetCode E e = code)) eqn:Hcode; simpl;
      rewrite ?Hempty, ?Hcode; [done|].
    by rewrite bool_decide_eq_true_2.
  - intros [e|]; [|done]. unfold setCode. by rewrite bool_decide_eq_true_2.
  - done.
Qed.

(** ** C3: IsNil *)

Lemma kindOf_named (nm : tyname) (t : GoType) : kindOf (named nm t) = kindOf t.
Proof. by destruct nm. Qed.

Lemma Value_Kind_ValueOf v :
  Value_Kind (ValueOf v) = match typeOf v with
                           | Some t => kindOf t
                           | None => KInvalid
                           end.
Proof. unfold ValueOf. by destruct (typeOf v). Qed.

(** [ValueOf] of an [any] never has kind [KInterface]. *)
Lemma ValueOf_not_interface v : Value_Kind (ValueOf v) <> KInterface.
Proof.
  rewrite Value_Kind_ValueOf.
  destruct v as [|nm ?|nm k ?|nm k ?|nm k ?|nm k ? ?|nm ?|nm ?|nm ? ? ?|nm ? ?
                 |nm ? ?|nm ? ?|nm ? ?|nm ? ? ?|nm ? ?];
    simpl; rewrite ?kindOf_named; try done; by destruct k.
Qed.

(** C3, as the code has it.  [isNil] is true exactly when [v] is the
    nil interface or holds a nil instance of a reference-like kind;
    [isWrapped] is false for the nil interface and for every value whose
    kind is not reference-like, and true for a nil instance of a
    reference-like kind. *)
Theorem C3_IsNil_amended v :
  ((IsNil v).1 = true <-> v = VNil \/ isWrappedNil v = true)
  /\ (v = VNil -> IsNil v = (true, false))
  /\ (isWrappedNil v = true -> IsNil v = (true, true))
  /\ (v <> VNil -> isReferenceLike (Value_Kind (ValueOf v)) = false ->
      IsNil v = (false, false)).
Proof.
  destruct v as [|nm ?|nm k ?|nm k ?|nm k ?|nm k ? ?|nm ?|nm ?|nm ? ? [?|]
                 |nm ? [?|]|nm ? [[? ?]|]|nm ? [?|]|nm ? ?|nm ? ? [?|]|nm ? ?];
    unfold IsNil, ValueOf, Value_Kind, Value_IsNil; simpl;
    rewrite ?kindOf_named; simpl;
    try (destruct k; simpl);
    (split; [split; [try done; by auto|intros [?|?]; done]|]);
    (split; [done|]); (split; [done|]); done.
Qed.

(** ** C8: IsEmpty on structs *)

(** C8.  A struct value without an [IsZero] method and without a
    [Value] method is empty exactly when it declares no field: with at
    least one field [IsEmpty] returns false whatever the fields hold. *)
Theorem C8_IsEmpty_struct (fuel : nat) (nm : tyname) (sig : string)
  (fields : list (FieldDecl * positive * value)) :
  asIsZeroer E (VStruct nm sig fields) = None ->
  asValuer E (VStruct nm sig fields) = None ->
  (fields <> [] -> IsEmpty E (S fuel) (VStruct nm sig fields) = Some false)
  /\ (IsEmpty E (S fuel) (VStruct nm sig fields) = Some true <-> fields = []).
Proof.
  intros Hzero Hvaluer.
  assert (IsEmpty E (S fuel) (VStruct nm sig fields)
          = Some (Nat.eqb (length fields) 0)) as ->.
  { simpl. rewrite Hzero, Hvaluer.
    unfold IsNil, ValueOf, Value_Kind; simpl. by rewrite kindOf_named. }
  destruct fields; simpl; (split; [done|]); split; done.
Qed.

(** ** C10: Map on a nil map *)

(** C10.  [MapRule.Validate] returns nil for a nil map, and for a
    pointer to a map type that points to a nil map, whatever the key
    bindings and the unknown-key policy. *)
Theorem C10_nil_map (r : MapRule) :
  (forall (nm : tyname) (kt et : GoType),
      MapRule_Validate E r (VMap nm kt et None) = Done None)
  /\ (forall (pnm nm : tyname) (e kt et : GoType) (a : positive),
      kindOf e = KMap ->
      MapRule_Validate E r (VPtr pnm e (Some (a, VMap nm kt et None)))
      = Done None).
Proof.
  split.
  - intros nm kt et. unfold MapRule_Validate, ValueOf; simpl.
    rewrite !kindOf_named; simpl. by rewrite kindOf_named.
  - intros pnm nm e kt et a He. unfold MapRule_Validate, ValueOf; simpl.
    rewrite !kindOf_named; simpl. by rewrite He.
Qed.

(** ** C1: the skip marker *)

(** The recursive call [Validate(rv.Elem().Interface())] passes no
    rule, so it is [validateValue]. *)
Lemma Validate_no_rules v : Validate E v [] = validateValue E v.
Proof. reflexivity. Qed.


Lemma rulesLoop_passing v (i : nat) (pre rest : list Rule) :
  (forall r, r ∈ pre -> isActiveSkip r = false /\ applyRule E v r = Done None) ->
  rulesLoop E v i (pre ++ rest) = rulesLoop E v (i + length pre) rest.
Proof.
  revert i. induction pre as [|r pre IH]; intros i Hpre; simpl.
  - by rewrite Nat.add_0_r.
  - destruct (Hpre r) as [-> ->]; [by left|]. simpl.
    rewrite IH; [f_equal; lia|]. intros r' Hr'. apply Hpre. by right.
Qed.

Lemma rulesLoop_reaches_skip v (i : nat) (pre post : list Rule) :
  (forall r, r ∈ pre -> isActiveSkip r = false -> applyRule E v r = Done None) ->
  exists j, (i <= j <= i + length pre)%nat
            /\ rulesLoop E v i (pre ++ Skip :: post) = Done (Skipped j).
Proof.
  revert i. induction pre as [|r pre IH]; intros i Hpre; simpl.
  - exists i. split; [lia|done].
  - destruct (isActiveSkip r) eqn:Hskip.
    + exists i. split; [lia|done].
    + rewrite (Hpre r); [|by left|done]. simpl.
      destruct (IH (S i)) as (j & Hj & ->).
      { intros r' Hr'. apply Hpre. by right. }
      exists j. split; [lia|done].
Qed.

(** The law holds of every [answer] that is what [Validate] gets when
    it applies a rule to [v]. *)
Lemma skipMarkerLaw_of_answer v (answer : Rule -> run error)
  (pre post : list Rule) :
  (forall r, applyRule E v r = answer r) ->
  skipMarkerLaw E v answer pre post.
Proof.
  intros Hans. split.
  - intros Hpre.
    destruct (rulesLoop_reaches_skip v 0 pre post) as (j & Hj & Hloop).
    { intros r Hr Hskip. rewrite Hans. by apply Hpre. }
    split; [|exists j; split; [lia|done]].
    unfold Validate. by rewrite Hloop.
  - intros ok rest rule e -> Hok Hskip Hrule.
    assert (rulesLoop E v 0 ((ok ++ rule :: rest) ++ Skip :: post)
            = Done (Failed (length ok) e)) as Hloop.
    { rewrite <- app_assoc. rewrite rulesLoop_passing.
      - simpl. by rewrite Hskip, Hans, Hrule.
      - intros r Hr. rewrite Hans. by apply Hok. }
    split; [|split; [done|]].
    + unfold Validate. by rewrite Hloop.
    + rewrite length_app. simpl. lia.
Qed.

(** C1, as the code has it.  For a value without a [ValidateWith]
    method the law of the skip marker holds of what the rules return:
    [rule.Validate(v)].  For a value with the method [Validate] never
    calls the rules; the law holds of what the method returns for each
    rule, [v.ValidateWith(rule)], and not of what the rules return. *)
Theorem C1_skip_marker_amended v (pre post : list Rule) :
  (asWithValidator E v = None ->
   skipMarkerLaw E v (fun r => Rule_Validate r v) pre post)
  /\ (forall red : Rule -> run error,
       asWithValidator E v = Some red ->
       skipMarkerLaw E v red pre post).
Proof.
  split.
  - intros Hwith. apply skipMarkerLaw_of_answer.
    intros r. unfold applyRule. by rewrite Hwith.
  - intros red Hwith. apply skipMarkerLaw_of_answer.
    intros r. unfold applyRule. by rewrite Hwith.
Qed.

(** ** Aggregation *)

Lemma fieldsSet_lookup (ers : option Fields) (name name' : string) err :
  default ∅ (fieldsSet ers name err) !! name'
  = if decide (name = name') then Some err else default ∅ ers !! name'.
Proof. unfold fieldsSet. simpl. apply lookup_insert. Qed.

Lemma collect_snoc (ers : option Fields) (outcomes : list (string * error))
  (out : string * error) :
  collect ers (outcomes ++ [out])
  = match out.2 with
    | Some e => fieldsSet (collect ers outcomes) out.1 (Some e)
    | None => collect ers outcomes
    end.
Proof. unfold collect. by rewrite foldl_app. Qed.

Lemma collect_entries (outcomes : list (string * error)) (ers : option Fields)
  (name : string) (x : error) :
  default ∅ (collect ers outcomes) !! name = Some x ->
  default ∅ ers !! name = Some x
  \/ exists e, x = Some e /\ (name, Some e) ∈ outcomes.
Proof.
  induction outcomes as [|[n err] outcomes IH] using rev_ind; [by left|].
  rewrite collect_snoc. simpl. destruct err as [e|].
  - rewrite fieldsSet_lookup. case_decide as Hn.
    + intros [= <-]. subst n. right. exists e. split; [done|].
      apply elem_of_app. right. by left.
    + intros H. destruct (IH H) as [?|(e' & ? & ?)]; [by left|].
      right. exists e'. split; [done|]. apply elem_of_app. by left.
  - intros H. destruct (IH H) as [?|(e' & ? & ?)]; [by left|].
    right. exists e'. split; [done|]. apply elem_of_app. by left.
Qed.

Lemma collect_keeps (outcomes : list (string * error)) (ers : option Fields)
  (name : string) :
  is_Some (default ∅ ers !! name) ->
  is_Some (default ∅ (collect ers outcomes) !! name).
Proof.
  induction outcomes as [|[n err] outcomes IH] using rev_ind; [done|].
  intros H. rewrite collect_snoc. simpl. destruct err as [e|]; [|by apply IH].
  rewrite fieldsSet_lookup. case_decide; [done|by apply IH].
Qed.

Lemma collect_failed (outcomes : list (string * error)) (ers : option Fields)
  (name : string) e :
  (name, Some e) ∈ outcomes ->
  is_Some (default ∅ (collect ers outcomes) !! name).
Proof.
  induction outcomes as [|[n err] outcomes IH] using rev_ind.
  { intros H. by apply elem_of_nil in H. }
  intros H. rewrite collect_snoc. simpl.
  apply elem_of_app in H as [H|H].
  - destruct err as [e'|]; [|by apply IH].
    rewrite fieldsSet_lookup. case_decide; [done|by apply IH].
  - apply list_elem_of_singleton in H as [= <- <-].
    rewrite fieldsSet_lookup. by rewrite decide_True.
Qed.

Lemma nonEmptyOrNil_None (ers : option Fields) :
  nonEmptyOrNil ers = None <-> default ∅ ers = ∅.
Proof.
  unfold nonEmptyOrNil, fieldsLen.
  destruct (Nat.ltb_spec 0 (size (default ∅ ers))) as [Hlt|Hle].
  - split; [done|]. intros H. rewrite H, map_size_empty in Hlt. lia.
  - split; [|done]. intros _. apply map_size_empty_iff. lia.
Qed.

Lemma nonEmptyOrNil_Some (ers : option Fields) e :
  nonEmptyOrNil ers = Some e ->
  e = XrrFields (default ∅ ers) /\ default ∅ ers <> ∅.
Proof.
  unfold nonEmptyOrNil, fieldsLen.
  destruct (Nat.ltb_spec 0 (size (default ∅ ers))) as [Hlt|Hle]; [|done].
  intros [= <-]. split; [done|]. intros H. rewrite H, map_size_empty in Hlt. lia.
Qed.

(** The error an aggregating loop returns aggregates its outcomes. *)
Lemma aggregates_collect (outcomes : list (string * error)) :
  aggregates outcomes (nonEmptyOrNil (collect None outcomes)).
Proof.
  destruct (nonEmptyOrNil (collect None outcomes)) as [e|] eqn:Hres.
  - apply nonEmptyOrNil_Some in Hres as [-> Hne]. simpl.
    split; [done|]. split.
    + intros name x Hx. apply collect_entries in Hx as [Hx|Hx]; [|done].
      simpl in Hx. by rewrite lookup_empty in Hx.
    + intros name e He. by eapply collect_failed.
  - apply nonEmptyOrNil_None in Hres. simpl. intros name [e|] Hin; [|done].
    eapply (collect_failed _ None) in Hin. rewrite Hres, lookup_empty in Hin.
    by destruct Hin.
Qed.

(** A loop whose body stores the error of each item under the item's
    path collects the outcomes. *)
Lemma forRange_collect {A : Type} (body : A -> option Fields -> run (option Fields))
  (name : A -> string) (xs : list A) (outs : list error) (ers : option Fields) :
  Forall2 (fun x out => forall ers,
             body x ers = Done match out with
                               | Some e => fieldsSet ers (name x) (Some e)
                               | None => ers
                               end) xs outs ->
  forRange body xs ers = Done (collect ers (zip (name <$> xs) outs)).
Proof.
  intros H. revert ers. induction H as [|x out xs outs Hx _ IH]; intros ers.
  - done.
  - simpl. rewrite Hx. simpl. by rewrite IH.
Qed.

(** ** C2: Each *)

Lemma getInterface_handed (e : GoType) (x : value) :
  getInterface (Val e x) = Done (handed e x).
Proof.
  unfold getInterface, handed, Value_Kind, Value_IsNil, Value_Interface.
  destruct (kindOf e); try done.
  - by destruct x.
  - destruct x as [| | | | | | | | | |? ? [[? ?]|]| | | |]; done.
Qed.

Lemma collect_cons (ers : option Fields) (out : string * error)
  (outcomes : list (string * error)) :
  collect ers (out :: outcomes)
  = collect match out.2 with
            | Some e => fieldsSet ers out.1 (Some e)
            | None => ers
            end outcomes.
Proof. done. Qed.

(** The loop of [Each] over the elements of a slice or an array. *)
Lemma each_elems_loop rules (e : GoType) (f : nat -> nat) (xs : list value)
  (outs : list error) (ers : option Fields) :
  Forall2 (fun x out => Validate E (handed e x) rules = Done out) xs outs ->
  forRange (fun '(i, elem) (ers : option Fields) =>
              val ← getInterface elem;
              err ← Validate E val rules;
              match err with
              | Some e => Done (fieldsSet ers (Itoa i) (Some e))
              | None => Done ers
              end)
           (imap (fun i x => (f i, x)) (Val e <$> xs)) ers
  = Done (collect ers (imap (fun i out => (Itoa (f i), out)) outs)).
Proof.
  intros H. revert f ers.
  induction H as [|x out xs outs Hx _ IH]; intros f ers; [done|].
  rewrite fmap_cons, !imap_cons, collect_cons.
  cbn [forRange]. rewrite getInterface_handed. cbn [mbind run_bind].
  rewrite Hx. cbn [mbind run_bind snd fst].
  destruct out as [err|]; apply (IH (f ∘ S)).
Qed.

(** The loop of [Each] over the keys of a map. *)
Lemma each_keys_loop rules (vo : Value) (kt et : GoType)
  (m : list (value * value)) (outs : list error) (ers : option Fields) :
  Forall2 (fun kx out => exists x,
             Value_MapIndex E vo (Val kt kx.1) = Done (Val et x)
             /\ Validate E (handed et x) rules = Done out) m outs ->
  forRange (fun k (ers : option Fields) =>
              entry ← Value_MapIndex E vo k;
              val ← getInterface entry;
              err ← Validate E val rules;
              match err with
              | Some e => Done (fieldsSet ers (mapErrKey k) (Some e))
              | None => Done ers
              end)
           ((fun kx => Val kt kx.1) <$> m) ers
  = Done (collect ers (zip ((fun kx => mapErrKey (Val kt kx.1)) <$> m) outs)).
Proof.
  intros H. revert ers.
  induction H as [|kx out m outs (x & Hidx & Hx) _ IH]; intros ers; [done|].
  rewrite !fmap_cons. cbn [zip zip_with]. rewrite collect_cons.
  cbn [forRange]. rewrite Hidx. cbn [mbind run_bind].
  rewrite getInterface_handed. cbn [mbind run_bind].
  rewrite Hx. cbn [mbind run_bind snd fst].
  destruct out as [err|]; apply IH.
Qed.

(** In the aggregate over a slice or an array the entry of an index is
    the error of that element. *)
Lemma aggregates_indexed (outs : list error) (ers : Fields) :
  aggregates (imap (fun i out => (Itoa i, out)) outs) (Some (XrrFields ers)) ->
  forall i : nat,
    ers !! Itoa i = match outs !! i with
                    | Some (Some e) => Some (Some e)
                    | _ => None
                    end.
Proof.
  intros (_ & Hentries & Hfailed) i.
  assert (forall name out,
             (name, out) ∈ imap (fun i out => (Itoa i, out)) outs ->
             name = Itoa i -> outs !! i = Some out) as Hidx.
  { intros name out Hin ->.
    apply elem_of_lookup_imap in Hin as (j & y & [= Hij <-] & Hj).
    apply (inj pretty) in Hij. by subst j. }
  destruct (ers !! Itoa i) as [x|] eqn:Hx.
  - destruct (Hentries _ _ Hx) as (e & -> & Hin).
    by rewrite (Hidx _ _ Hin eq_refl).
  - destruct (outs !! i) as [[e|]|] eqn:Hi; try done.
    destruct (Hfailed (Itoa i) e) as [y Hy]; [|congruence].
    apply elem_of_lookup_imap. by exists i, (Some e).
Qed.

(** C2, as the code has it.  [Each] hands every element to the rules
    through [getInterface]: a nil pointer and a nil interface become the
    nil interface, an interface element is the value it holds, and a
    pointer that is not nil is handed over as the pointer, not as what
    it points to.  The errors of the elements are aggregated into a
    Fields error keyed by index (slice, array) or by [mapErrKey] of the
    key (map), and a value of any other kind yields the type error with
    code [ECInvType]. *)
Theorem C2_each_amended rules :
  (forall (e : GoType) (x : value), getInterface (Val e x) = Done (handed e x))
  /\ (forall (e e' : GoType) (nm : tyname) (a : positive) (y : value),
        handed e (VPtr nm e' (Some (a, y))) = VPtr nm e' (Some (a, y)))
  /\ (forall (e e' : GoType) (nm : tyname),
        kindOf e = KPtr -> handed e (VPtr nm e' None) = VNil)
  /\ (forall e : GoType, handed e VNil = VNil)
  /\ (forall v (e : GoType) (xs : list value) (outs : list error),
        (exists nm, v = VArray nm e xs \/ v = VSlice nm e (Some xs)
                    \/ (v = VSlice nm e None /\ xs = [])) ->
        Forall2 (fun x out => Validate E (handed e x) rules = Done out) xs outs ->
        exists res,
          EachRule_Validate E (Each rules) v = Done res
          /\ aggregates (imap (fun i out => (Itoa i, out)) outs) res
          /\ forall ers, res = Some (XrrFields ers) ->
               forall i : nat,
                 ers !! Itoa i = match outs !! i with
                                 | Some (Some e) => Some (Some e)
                                 | _ => None
                                 end)
  /\ (forall (nm : tyname) (kt et : GoType) (m : option (list (value * value)))
             (outs : list error),
        Forall2 (fun kx out => exists x,
                   Value_MapIndex E (ValueOf (VMap nm kt et m)) (Val kt kx.1)
                   = Done (Val et x)
                   /\ Validate E (handed et x) rules = Done out)
                (default [] m) outs ->
        exists res,
          EachRule_Validate E (Each rules) (VMap nm kt et m) = Done res
          /\ aggregates
               (zip ((fun kx => mapErrKey (Val kt kx.1)) <$> default [] m) outs)
               res)
  /\ (forall v,
        Value_Kind (ValueOf v) <> KMap ->
        Value_Kind (ValueOf v) <> KSlice ->
        Value_Kind (ValueOf v) <> KArray ->
        EachRule_Validate E (Each rules) v
        = Done (Some (XrrNew "must be an iterable" ECInvType))
        /\ GetCode E (XrrNew "must be an iterable" ECInvType) = ECInvType).
Proof.
  split; [apply getInterface_handed|].
  split; [intros e e' nm a y; unfold handed; by destruct (kindOf e)|].
  split; [intros e e' nm He; unfold handed; by rewrite He|].
  split; [intros e; unfold handed; by destruct (kindOf e)|].
  split; [|split].
  - intros v e xs outs (nm & Hv) Houts.
    exists (nonEmptyOrNil (collect None (imap (fun i out => (Itoa i, out)) outs))).
    split; [|split].
    + pose proof (each_elems_loop rules e id xs outs None Houts) as Hloop.
      change (imap (fun i x => (id i, x)) (Val e <$> xs))
        with (imap pair (Val e <$> xs)) in Hloop.
      destruct Hv as [->|[->|[-> ->]]];
        unfold EachRule_Validate, ValueOf;
        cbn [typeOf Value_Kind Value_Elems each_rules Each];
        rewrite kindOf_named; cbn [kindOf].
      * by rewrite Hloop.
      * by rewrite Hloop.
      * by inversion Houts.
    + apply aggregates_collect.
    + intros ers Hers. apply aggregates_indexed. rewrite <- Hers.
      apply aggregates_collect.
  - intros nm kt et m outs Houts.
    eexists. split; [|apply aggregates_collect].
    pose proof (each_keys_loop rules _ kt et (default [] m) outs None Houts) as Hloop.
    unfold EachRule_Validate. cbv zeta. cbn [each_rules Each].
    replace (Value_Kind (ValueOf (VMap nm kt et m))) with KMap
      by (unfold ValueOf; cbn [typeOf Value_Kind]; by rewrite kindOf_named).
    destruct m as [m|].
    + change (Value_MapKeys (ValueOf (VMap nm kt et (Some m))))
        with ((fun kx : value * value => Val kt kx.1) <$> m).
      change (default [] (Some m)) with m in Hloop. by rewrite Hloop.
    + by inversion Houts.
  - intros v Hmap Hslice Harray. split; [|done].
    unfold EachRule_Validate. by destruct (Value_Kind (ValueOf v)).
Qed.

(** ** The field search *)

Lemma scanFields_Some (look : FieldDecl * positive * value -> option FieldDecl)
  (fs : list (FieldDecl * positive * value)) (sf : FieldDecl) :
  scanFields look fs = Some sf -> exists fld, fld ∈ fs /\ look fld = Some sf.
Proof.
  induction fs as [|fld fs IH]; simpl; [done|].
  destruct (scanFields look fs) as [found|].
  - intros [= ->]. destruct IH as (fld' & ? & ?); [done|].
    exists fld'. split; [by right|done].
  - intros H. exists fld. split; [by left|done].
Qed.

Lemma scanFields_None (look : FieldDecl * positive * value -> option FieldDecl)
  (fs : list (FieldDecl * positive * value)) :
  scanFields look fs = None <-> forall fld, fld ∈ fs -> look fld = None.
Proof.
  induction fs as [|fld fs IH]; simpl.
  - split; [|done]. intros _ fld H. by apply elem_of_nil in H.
  - destruct (scanFields look fs) as [found|].
    + split; [done|]. intros H.
      assert (Some found = None) as [=]. apply IH. intros fld' ?. apply H. by right.
    + split.
      * intros H fld' [->|?]%elem_of_cons; [done|by apply IH].
      * intros H. apply H. by left.
Qed.

Lemma depth_field (nm : tyname) (sig : string)
  (fs : list (FieldDecl * positive * value)) (fld : FieldDecl * positive * value) :
  fld ∈ fs -> (depth fld.2 < depth (VStruct nm sig fs))%nat.
Proof.
  simpl. induction fs as [|fld' fs IH]; intros H.
  - by apply elem_of_nil in H.
  - apply elem_of_cons in H as [->|H]; simpl; [lia|].
    specialize (IH H). lia.
Qed.

(** What [findStructField] answers is a declared field at the address
    and of the type of the pointer. *)
Lemma findStructField_sound (f : Value) (s : value) (sf : FieldDecl) :
  findStructField s f = Some sf ->
  FieldAt (Value_Pointer f) (pointeeType f) s sf.
Proof.
  remember (S (depth s)) as n eqn:Hn.
  assert (depth s < n)%nat as Hlt by lia. clear Hn.
  revert s sf Hlt. induction n as [|n IH]; intros s sf Hlt; [lia|].
  destruct s as [| | | | | | | | | | | | | |nm sig fs]; try done.
  simpl. intros ([[d addr] x] & Hin & Hlook)%scanFields_Some.
  pose proof (depth_field nm sig fs _ Hin) as Hx. simpl in Hx.
  unfold lookAt in Hlook.
  destruct ((Value_Pointer f =? Z.pos addr)
            && bool_decide (Some (fd_type d) = pointeeType f)) eqn:Hhere.
  { injection Hlook as <-. apply andb_prop in Hhere as [Haddr Hty].
    eapply FieldAt_here; [done| |].
    - by apply Z.eqb_eq.
    - symmetry. by apply bool_decide_eq_true_1 in Hty. }
  destruct (fd_anon d) eqn:Hanon; [|done].
  case_bool_decide as Hptr.
  - destruct x as [| | | | | | | | | |pnm e [[a y]|]| | | |]; try done.
    case_bool_decide as Hstruct; [|done].
    eapply FieldAt_embedded_ptr; [done..|].
    apply IH; [|done]. simpl in Hx. simpl in Hlt. lia.
  - case_bool_decide as Hstruct; [|done].
    eapply FieldAt_embedded; [done..|].
    apply IH; [|done]. simpl in Hlt. lia.
Qed.

(** Every declared field at the address and of the type of the pointer
    makes [findStructField] answer. *)
Lemma findStructField_complete (f : Value) (s : value) (sf : FieldDecl) :
  FieldAt (Value_Pointer f) (pointeeType f) s sf ->
  is_Some (findStructField s f).
Proof.
  induction 1 as [nm sig fs sf addr x Hin Haddr Hty
                 |nm sig fs sf addr x found Hin Hanon Hkind _ IH
                 |nm sig fs sf addr pnm e a y found Hin Hanon Hkind He _ IH];
    simpl;
    (destruct (scanFields _ fs) as [r|] eqn:Hscan; [done|]);
    pose proof (proj1 (scanFields_None _ _) Hscan _ Hin) as Hlook;
    unfold lookAt in Hlook; exfalso.
  - rewrite Haddr, Z.eqb_refl, Hty, bool_decide_eq_true_2 in Hlook; done.
  - destruct (_ && _); [done|]. rewrite Hanon, Hkind in Hlook. simpl in Hlook.
    rewrite Hlook in IH. by destruct IH.
  - destruct (_ && _); [done|]. rewrite Hanon, Hkind in Hlook. simpl in Hlook.
    rewrite He in Hlook. simpl in Hlook. rewrite Hlook in IH. by destruct IH.
Qed.

Lemma findStructField_None_iff (s : value) (fieldPtr : value) :
  findStructField s (ValueOf fieldPtr) = None <-> noFieldAt s fieldPtr.
Proof.
  split.
  - intros Hnone sf Hat. apply findStructField_complete in Hat.
    rewrite Hnone in Hat. by destruct Hat.
  - intros Hno. destruct (findStructField s (ValueOf fieldPtr)) as [sf|] eqn:H; [|done].
    apply findStructField_sound in H. by destruct (Hno sf).
Qed.

(** ** C4 and C5: ValidateStruct *)

(** [ValidateStruct] on a pointer to a struct is its loop over the
    bindings. *)
Lemma ValidateStruct_loop (pnm : tyname) (e : GoType) (a : positive) (s : value)
  (fields : list FieldRules) :
  kindOf e = KStruct ->
  ValidateStruct E (VPtr pnm e (Some (a, s))) fields
  = res ← forRangeRet (fieldStep E s) (imap pair fields) None;
    match res with
    | Return err => Done err
    | Continue ers => Done (Fields_Filter ers)
    end.
Proof.
  intros He. unfold ValidateStruct, ValueOf, Value_Kind, Value_IsNil, Value_Elem.
  cbn [typeOf]. rewrite !kindOf_named. cbn [kindOf]. rewrite He. done.
Qed.

Lemma fieldStep_passes (s : value) (i : nat) (fr : FieldRules) (ers : option Fields) :
  bindingPasses E s fr ->
  exists ers', fieldStep E s (i, fr) ers = Done (Continue ers').
Proof.
  intros (Hptr & [sf Hsf] & t & x & err & Hx & Hval & Hcode).
  unfold fieldStep. rewrite Hptr, Hsf, Hx. simpl. rewrite Hval. simpl.
  destruct err as [e|]; [|by eexists].
  rewrite bool_decide_eq_false_2 by by apply Hcode.
  destruct (if fd_anon sf then asFielder e else None); by eexists.
Qed.

Lemma fieldLoop_passes (s : value) (f : nat -> nat) (pre : list FieldRules)
  (ers : option Fields) :
  Forall (bindingPasses E s) pre ->
  exists ers',
    forRangeRet (fieldStep E s) (imap (fun i fr => (f i, fr)) pre) ers
    = Done (Continue ers').
Proof.
  intros H. revert f ers. induction H as [|fr pre Hfr _ IH]; intros f ers.
  - by eexists.
  - rewrite imap_cons. cbn [forRangeRet].
    destruct (fieldStep_passes s (f 0%nat) fr ers Hfr) as [ers1 ->].
    cbn [mbind run_bind]. apply (IH (f ∘ S)).
Qed.

(** The loop up to the first binding that stops the resolution. *)
Lemma fieldLoop_stops (s : value) (pre post : list FieldRules) (fr : FieldRules)
  (err : error) :
  Forall (bindingPasses E s) pre ->
  (forall ers, fieldStep E s (length pre, fr) ers = Done (Return err)) ->
  forRangeRet (fieldStep E s) (imap pair (pre ++ fr :: post)) None
  = Done (Return err).
Proof.
  intros Hpre Hfr. rewrite imap_app, forRangeRet_app.
  destruct (fieldLoop_passes s id pre None Hpre) as [ers Hloop].
  change (imap (fun i fr => (id i, fr)) pre) with (imap pair pre) in Hloop.
  rewrite Hloop. cbn [mbind run_bind]. rewrite imap_cons. cbn [forRangeRet].
  rewrite Nat.add_0_r, Hfr. done.
Qed.

(** Every error with which a binding stops the resolution is an
    internal error and no Fields aggregate. *)
Lemma fieldStep_Return (s : value) (ifr : nat * FieldRules) (ers : option Fields)
  (err : error) :
  fieldStep E s ifr ers = Done (Return err) ->
  exists e, err = Some e /\ GetCode E e = ECInternal /\ asFielder e = None.
Proof.
  destruct ifr as [i fr]. unfold fieldStep.
  case_bool_decide as Hptr; simpl.
  2:{ intros [= <-]. by eexists. }
  destruct (findStructField s (ValueOf (fr_fieldPtr fr))) as [sf|].
  2:{ intros [= <-]. by eexists. }
  destruct (Value_Interface _) as [x|]; simpl; [|done].
  destruct (Validate E x (fr_rules fr)) as [[e|]|]; simpl; [|done|done].
  case_bool_decide as Hcode.
  - intros [= <-]. by eexists.
  - by destruct (if fd_anon sf then asFielder e else None).
Qed.

(** A binding whose pointer corresponds to no field stops the
    resolution. *)
Lemma fieldStep_not_found (s : value) (i : nat) (fr : FieldRules)
  (ers : option Fields) :
  Value_Kind (ValueOf (fr_fieldPtr fr)) = KPtr ->
  noFieldAt s (fr_fieldPtr fr) ->
  fieldStep E s (i, fr) ers = Done (Return (Some (ErrFieldNotFound i))).
Proof.
  intros Hptr Hno. apply findStructField_None_iff in Hno.
  unfold fieldStep. by rewrite Hptr, Hno.
Qed.

Lemma fieldLoop_Return (s : value) (l : list (nat * FieldRules))
  (ers : option Fields) (err : error) :
  forRangeRet (fieldStep E s) l ers = Done (Return err) ->
  exists e, err = Some e /\ GetCode E e = ECInternal /\ asFielder e = None.
Proof.
  revert ers. induction l as [|ifr l IH]; intros ers; [done|].
  cbn [forRangeRet].
  destruct (fieldStep E s ifr ers) as [[ers'|err']|] eqn:Hstep;
    cbn [mbind run_bind]; [apply IH| |done].
  intros [= <-]. by eapply fieldStep_Return.
Qed.

Lemma fieldLoop_never_continues (s : value) (l : list (nat * FieldRules))
  (ers ers' : option Fields) :
  (exists ifr, ifr ∈ l
               /\ Value_Kind (ValueOf (fr_fieldPtr ifr.2)) = KPtr
               /\ noFieldAt s (fr_fieldPtr ifr.2)) ->
  forRangeRet (fieldStep E s) l ers <> Done (Continue ers').
Proof.
  revert ers. induction l as [|[i fr] l IH]; intros ers ([j fr'] & Hin & Hptr & Hno).
  { by apply elem_of_nil in Hin. }
  cbn [forRangeRet]. apply elem_of_cons in Hin as [[= -> ->]|Hin].
  - by rewrite fieldStep_not_found.
  - destruct (fieldStep E s (i, fr) ers) as [[ers1|err1]|]; cbn [mbind run_bind];
      [|done|done].
    apply IH. by exists (j, fr').
Qed.

(** C4, as the code has it.  Let [p] be a pointer to a struct that is
    not nil.  A binding that supplies a pointer corresponding to no
    declared field makes [ValidateStruct] return the field-not-found
    error of that binding's index whenever no earlier binding stops the
    resolution; and whatever the other bindings are, what
    [ValidateStruct] returns then is an error with the code
    [ECInternal] that is no Fields aggregate. *)
Theorem C4_field_not_found_amended (pnm : tyname) (e : GoType) (a : positive)
  (s : value) :
  kindOf e = KStruct ->
  (forall (pre post : list FieldRules) (fr : FieldRules),
      Forall (bindingPasses E s) pre ->
      Value_Kind (ValueOf (fr_fieldPtr fr)) = KPtr ->
      noFieldAt s (fr_fieldPtr fr) ->
      ValidateStruct E (VPtr pnm e (Some (a, s))) (pre ++ fr :: post)
      = Done (Some (ErrFieldNotFound (length pre)))
      /\ GetCode E (ErrFieldNotFound (length pre)) = ECInternal
      /\ asFielder (ErrFieldNotFound (length pre)) = None)
  /\ (forall (fields : list FieldRules) (fr : FieldRules) (res : error),
      fr ∈ fields ->
      Value_Kind (ValueOf (fr_fieldPtr fr)) = KPtr ->
      noFieldAt s (fr_fieldPtr fr) ->
      ValidateStruct E (VPtr pnm e (Some (a, s))) fields = Done res ->
      exists e', res = Some e' /\ GetCode E e' = ECInternal
                 /\ asFielder e' = None).
Proof.
  intros He. split.
  - intros pre post fr Hpre Hptr Hno. split; [|done].
    rewrite ValidateStruct_loop by done.
    rewrite (fieldLoop_stops s pre post fr (Some (ErrFieldNotFound (length pre))));
      [done|done|].
    intros ers. by apply fieldStep_not_found.
  - intros fields fr res Hin Hptr Hno. rewrite ValidateStruct_loop by done.
    destruct (forRangeRet _ _ _) as [[ers|err]|] eqn:Hloop; cbn [mbind run_bind];
      [|intros [= <-]; by eapply fieldLoop_Return|done].
    exfalso. eapply fieldLoop_never_continues; [|done].
    apply list_elem_of_lookup in Hin as [i Hi].
    exists (i, fr). split; [|done].
    apply elem_of_lookup_imap. by exists i, fr.
Qed.

(** C5.  When the resolution reaches a binding whose field validates to
    an error with the code [ECInternal], [ValidateStruct] returns a new
    internal error whose message is the field's resolved path name, a
    colon and the original message, whatever errors the earlier
    bindings have produced and whatever bindings follow. *)
Theorem C5_internal_error_short_circuit (pnm : tyname) (e : GoType)
  (a : positive) (s : value) (pre post : list FieldRules) (fr : FieldRules)
  (sf : FieldDecl) (t : GoType) (x : value) (err : Err) :
  kindOf e = KStruct ->
  Forall (bindingPasses E s) pre ->
  Value_Kind (ValueOf (fr_fieldPtr fr)) = KPtr ->
  findStructField s (ValueOf (fr_fieldPtr fr)) = Some sf ->
  Value_Elem (ValueOf (fr_fieldPtr fr)) = Val t x ->
  Validate E x (fr_rules fr) = Done (Some err) ->
  GetCode E err = ECInternal ->
  ValidateStruct E (VPtr pnm e (Some (a, s))) (pre ++ fr :: post)
  = Done (Some (XrrNew (getErrorFieldName E (fr_tag fr) sf ++ ": "
                        ++ Err_Error E err) ECInternal)).
Proof.
  intros He Hpre Hptr Hsf Hx Hval Hcode.
  rewrite ValidateStruct_loop by done.
  erewrite fieldLoop_stops; [done|done|].
  intros ers. unfold fieldStep. rewrite Hptr, Hsf, Hx. simpl.
  rewrite Hval. simpl. by rewrite bool_decide_eq_true_2.
Qed.

(** ** C7: no Fields error is empty *)

Lemma collect_all_nil (outcomes : list (string * error)) (ers : option Fields) :
  (forall name err, (name, err) ∈ outcomes -> err = None) ->
  collect ers outcomes = ers.
Proof.
  intros H. induction outcomes as [|[n out] outcomes IH] using rev_ind; [done|].
  rewrite collect_snoc. simpl.
  rewrite (H n out) by (apply elem_of_app; right; by left).
  apply IH. intros name err Hin. apply (H name). apply elem_of_app. by left.
Qed.

Lemma Fields_Filter_Some (ers : option Fields) (m : Fields) :
  Fields_Filter ers = Some (XrrFields m) -> m <> ∅.
Proof.
  unfold Fields_Filter.
  destruct (Nat.eqb_spec (size (filter (fun kv => is_Some kv.2) (default ∅ ers))) 0)
    as [|Hne]; [done|].
  intros [= <-]. by apply map_size_non_empty_iff.
Qed.

Lemma keyStep_Return (allowUnknown : bool) (val : Value) (kt : GoType)
  (kr : KeyRules) (st : option Fields * list value) (err : error) :
  keyStep E allowUnknown val kt kr st = Done (Return err) ->
  exists msg, err = Some (XrrNew msg ECInternal).
Proof.
  destruct st as [ers extraKeys]. unfold keyStep.
  destruct (keyError E val kt kr) as [[e|]|]; simpl; [|done|done].
  case_bool_decide; [|done]. intros [= <-]. by eexists.
Qed.

Lemma keyLoop_Return (allowUnknown : bool) (val : Value) (kt : GoType)
  (keys : list KeyRules) (st : option Fields * list value) (err : error) :
  forRangeRet (keyStep E allowUnknown val kt) keys st = Done (Return err) ->
  exists msg, err = Some (XrrNew msg ECInternal).
Proof.
  revert st. induction keys as [|kr keys IH]; intros st; [done|].
  cbn [forRangeRet].
  destruct (keyStep E allowUnknown val kt kr st) as [[st'|err']|] eqn:Hstep;
    cbn [mbind run_bind]; [apply IH| |done].
  intros [= <-]. by eapply keyStep_Return.
Qed.

(** The loop over bindings none of which has an error. *)
Lemma keyLoop_all_nil (allowUnknown : bool) (val : Value) (kt : GoType)
  (keys : list KeyRules) (ers : option Fields) (extraKeys : list value) :
  Forall (fun kr => keyError E val kt kr = Done None) keys ->
  forRangeRet (keyStep E allowUnknown val kt) keys (ers, extraKeys)
  = Done (Continue (ers, if negb allowUnknown
                         then foldl keysDelete extraKeys (kr_key <$> keys)
                         else extraKeys)).
Proof.
  intros H. revert extraKeys. induction H as [|kr keys Hkr _ IH]; intros extraKeys.
  - by destruct allowUnknown.
  - cbn [forRangeRet].
    assert (keyStep E allowUnknown val kt kr (ers, extraKeys)
            = Done (Continue (ers, if negb allowUnknown
                                   then keysDelete extraKeys (kr_key kr)
                                   else extraKeys))) as ->.
    { unfold keyStep. by rewrite Hkr. }
    cbn [mbind run_bind]. rewrite IH. by destruct allowUnknown.
Qed.

Lemma keysDelete_fold_elem (keys : list value) (extraKeys : list value) (k : value) :
  k ∈ foldl keysDelete extraKeys keys ->
  k ∈ extraKeys /\ forall key, key ∈ keys -> any_eq k key = false.
Proof.
  revert extraKeys. induction keys as [|key keys IH]; intros extraKeys; simpl.
  - intros H. split; [done|]. intros key Hkey. by apply elem_of_nil in Hkey.
  - intros H. apply IH in H as [Hk Hrest].
    apply list_elem_of_filter in Hk as [Hkey Hk]. split; [done|].
    intros key' [->|?]%elem_of_cons; [done|by apply Hrest].
Qed.

(** The loop over bindings that all resolve and validate to nil. *)
Lemma fieldLoop_all_nil (s : value) (f : nat -> nat) (fields : list FieldRules)
  (ers : option Fields) :
  Forall (fun fr =>
            Value_Kind (ValueOf (fr_fieldPtr fr)) = KPtr
            /\ is_Some (findStructField s (ValueOf (fr_fieldPtr fr)))
            /\ exists t x, Value_Elem (ValueOf (fr_fieldPtr fr)) = Val t x
                           /\ Validate E x (fr_rules fr) = Done None) fields ->
  forRangeRet (fieldStep E s) (imap (fun i fr => (f i, fr)) fields) ers
  = Done (Continue ers).
Proof.
  intros H. revert f.
  induction H as [|fr fields (Hptr & [sf Hsf] & t & x & Hx & Hval) _ IH]; intros f.
  - done.
  - rewrite imap_cons. cbn [forRangeRet].
    assert (fieldStep E s (f 0%nat, fr) ers = Done (Continue ers)) as ->.
    { unfold fieldStep. rewrite Hptr, Hsf, Hx. simpl. by rewrite Hval. }
    cbn [mbind run_bind]. apply (IH (f ∘ S)).
Qed.

(** [MapRule.Validate] on a map that is not nil is its loop over the
    bindings, followed by the marking of the keys left over. *)
Lemma MapRule_Validate_loop (r : MapRule) (nm : tyname) (kt et : GoType)
  (m : list (value * value)) :
  MapRule_Validate E r (VMap nm kt et (Some m))
  = res ← forRangeRet
            (keyStep E (mr_allowUnknown r) (ValueOf (VMap nm kt et (Some m))) kt)
            (mr_keys r)
            (None, if negb (mr_allowUnknown r) then m.*1 else []);
    match res with
    | Return err => Done err
    | Continue (ers, extraKeys) =>
        Done (nonEmptyOrNil
                (if negb (mr_allowUnknown r)
                 then markUnexpected E ers extraKeys else ers))
    end.
Proof. by destruct nm. Qed.

(** C7.  [EachRule.Validate], [MapRule.Validate] and [ValidateStruct]
    never return a Fields error without entries, and they return nil
    whenever no path produced an error: [Each] when every element
    validates to nil, in particular over no element at all; [Map] when
    no binding has an error and, unless unknown keys are allowed, the
    bindings cover all keys; [ValidateStruct] when every bound field
    validates to nil. *)
Theorem C7_no_empty_fields :
  (forall (r : EachRule) v (m : Fields),
      EachRule_Validate E r v = Done (Some (XrrFields m)) -> m <> ∅)
  /\ (forall (r : MapRule) v (m : Fields),
      MapRule_Validate E r v = Done (Some (XrrFields m)) -> m <> ∅)
  /\ (forall v (fields : list FieldRules) (m : Fields),
      ValidateStruct E v fields = Done (Some (XrrFields m)) -> m <> ∅)
  /\ (forall rules v (e : GoType) (xs : list value),
      (exists nm, v = VArray nm e xs \/ v = VSlice nm e (Some xs)
                  \/ (v = VSlice nm e None /\ xs = [])) ->
      Forall (fun x => Validate E (handed e x) rules = Done None) xs ->
      EachRule_Validate E (Each rules) v = Done None)
  /\ (forall rules (nm : tyname) (kt et : GoType)
             (m : option (list (value * value))),
      Forall (fun kx => exists x,
                Value_MapIndex E (ValueOf (VMap nm kt et m)) (Val kt kx.1)
                = Done (Val et x)
                /\ Validate E (handed et x) rules = Done None)
             (default [] m) ->
      EachRule_Validate E (Each rules) (VMap nm kt et m) = Done None)
  /\ (forall (r : MapRule) (nm : tyname) (kt et : GoType)
             (m : list (value * value)),
      Forall (fun kr =>
                keyError E (ValueOf (VMap nm kt et (Some m))) kt kr = Done None)
             (mr_keys r) ->
      (mr_allowUnknown r = false ->
       forall k, k ∈ m.*1 ->
                 exists kr, kr ∈ mr_keys r /\ any_eq k (kr_key kr) = true) ->
      MapRule_Validate E r (VMap nm kt et (Some m)) = Done None)
  /\ (forall (pnm : tyname) (e : GoType) (a : positive) (s : value)
             (fields : list FieldRules),
      kindOf e = KStruct ->
      Forall (fun fr =>
                Value_Kind (ValueOf (fr_fieldPtr fr)) = KPtr
                /\ is_Some (findStructField s (ValueOf (fr_fieldPtr fr)))
                /\ exists t x, Value_Elem (ValueOf (fr_fieldPtr fr)) = Val t x
                               /\ Validate E x (fr_rules fr) = Done None)
             fields ->
      ValidateStruct E (VPtr pnm e (Some (a, s))) fields = Done None).
Proof.
  split; [|split; [|split; [|split; [|split; [|split]]]]].
  - intros r v m. unfold EachRule_Validate.
    destruct (Value_Kind (ValueOf v)); try done;
      (destruct (forRange _ _ _) as [ers|]; cbn [mbind run_bind]; [|done]);
      intros [= H]; by apply nonEmptyOrNil_Some in H as [[= ->] ?].
  - intros r v m. unfold MapRule_Validate.
    destruct (negb _); [done|]. destruct (Value_IsNil _); [done|].
    destruct (Value_Type _) as [t|]; cbn [mbind run_bind]; [|done].
    destruct (keyOf t) as [kt|]; [|done].
    destruct (forRangeRet _ _ _) as [[[ers extraKeys]|err]|] eqn:Hloop;
      cbn [mbind run_bind]; [| |done].
    + intros [= H]. by apply nonEmptyOrNil_Some in H as [[= ->] ?].
    + intros [= ->]. by apply keyLoop_Return in Hloop as [msg [=]].
  - intros v fields m. unfold ValidateStruct.
    destruct (_ || _); [done|]. destruct (Value_IsNil _); [done|].
    destruct (Value_Interface _) as [s|]; cbn [mbind run_bind]; [|done].
    destruct (forRangeRet _ _ _) as [[ers|err]|] eqn:Hloop;
      cbn [mbind run_bind]; [| |done].
    + intros [= H]. by eapply Fields_Filter_Some.
    + intros [= ->]. by apply fieldLoop_Return in Hloop as (e & [= <-] & _ & [=]).
  - intros rules v e xs (nm & Hv) Hxs.
    assert (Forall2 (fun x out => Validate E (handed e x) rules = Done out)
                    xs ((fun _ => None) <$> xs)) as Houts.
    { apply Forall2_fmap_r, Forall_Forall2_diag. done. }
    pose proof (each_elems_loop rules e id xs _ None Houts) as Hloop.
    change (imap (fun i x => (id i, x)) (Val e <$> xs))
      with (imap pair (Val e <$> xs)) in Hloop.
    rewrite collect_all_nil in Hloop.
    2:{ intros name err (i & out & [= _ ->] & Hi)%elem_of_lookup_imap.
        apply list_lookup_fmap_Some in Hi as (? & ? & ?). done. }
    destruct Hv as [->|[->|[-> ->]]];
      unfold EachRule_Validate, ValueOf;
      cbn [typeOf Value_Kind Value_Elems each_rules Each];
      rewrite kindOf_named; cbn [kindOf]; [by rewrite Hloop..|done].
  - intros rules nm kt et m Hm.
    assert (Forall2 (fun kx out => exists x,
                       Value_MapIndex E (ValueOf (VMap nm kt et m)) (Val kt kx.1)
                       = Done (Val et x)
                       /\ Validate E (handed et x) rules = Done out)
                    (default [] m) ((fun _ => None) <$> default [] m)) as Houts.
    { apply Forall2_fmap_r, Forall_Forall2_diag. done. }
    pose proof (each_keys_loop rules _ kt et (default [] m) _ None Houts) as Hloop.
    rewrite collect_all_nil in Hloop.
    2:{ intros name err Hin. apply elem_of_zip_r in Hin.
        apply list_elem_of_fmap in Hin as (? & ? & ?). done. }
    unfold EachRule_Validate. cbv zeta. cbn [each_rules Each].
    replace (Value_Kind (ValueOf (VMap nm kt et m))) with KMap
      by (unfold ValueOf; cbn [typeOf Value_Kind]; by rewrite kindOf_named).
    destruct m as [m|]; [|done].
    change (Value_MapKeys (ValueOf (VMap nm kt et (Some m))))
      with ((fun kx : value * value => Val kt kx.1) <$> m).
    change (default [] (Some m)) with m in Hloop. by rewrite Hloop.
  - intros r nm kt et m Hkeys Hcover. rewrite MapRule_Validate_loop.
    rewrite keyLoop_all_nil by done. cbn [mbind run_bind].
    destruct (mr_allowUnknown r) eqn:Hallow; cbn [negb].
    { apply (f_equal Done). by apply nonEmptyOrNil_None. }
    assert (foldl keysDelete m.*1 (kr_key <$> mr_keys r) = []) as ->.
    2:{ apply (f_equal Done). by apply nonEmptyOrNil_None. }
    destruct (foldl keysDelete _ _) as [|k rest] eqn:Hfold; [done|].
    assert (k ∈ foldl keysDelete m.*1 (kr_key <$> mr_keys r)) as Hk
      by (rewrite Hfold; by left).
    apply keysDelete_fold_elem in Hk as [Hk Hnone].
    destruct (Hcover eq_refl k Hk) as (kr & Hkr & Heq).
    rewrite Hnone in Heq; [done|]. apply list_elem_of_fmap. by exists kr.
  - intros pnm e a s fields He Hfields.
    rewrite ValidateStruct_loop by done.
    pose proof (fieldLoop_all_nil s id fields None Hfields) as Hloop.
    change (imap (fun i fr => (id i, fr)) fields) with (imap pair fields) in Hloop.
    by rewrite Hloop.
Qed.

End Properties.

(** * Further properties of the package *)

Section Dispatcher.
Context (E : Env).
Implicit Types (v : value) (rules : list Rule).

(** ** verax.go: the rule loop *)

(** What [Validate] makes of the way the loop ended. *)
Lemma Validate_finish v (i j : nat) rules (k : loopExit -> run error) :
  (forall a b, k (Skipped a) = k (Skipped b)) ->
  (forall a b e, k (Failed a e) = k (Failed b e)) ->
  (exit ← rulesLoop E v i rules; k exit)
  = (exit ← rulesLoop E v j rules; k exit).
Proof.
  intros Hs Hf. revert i j.
  induction rules as [|rule rest IH]; intros i j; [done|].
  cbn [rulesLoop]. destruct (isActiveSkip rule).
  - cbn. apply Hs.
  - destruct (applyRule E v rule) as [[e|]|]; cbn; [apply Hf|apply IH|done].
Qed.

(** One turn of the loop of [Validate]. *)
Lemma Validate_cons v (rule : Rule) rules :
  Validate E v (rule :: rules)
  = if isActiveSkip rule then Done None
    else err ← applyRule E v rule;
         match err with
         | Some e => Done (Some e)
         | None => Validate E v rules
         end.
Proof.
  unfold Validate. cbn [rulesLoop]. destruct (isActiveSkip rule); [done|].
  destruct (applyRule E v rule) as [[e|]|]; cbn; [done| |done].
  by apply Validate_finish.
Qed.

(** X1: a skip marker that is switched off, [Skip.When(false)], is a
    rule that passes: for a value without a [ValidateWith] method,
    taking it out of the rule list, wherever it stands, does not change
    what [Validate] returns. *)
Theorem Validate_inactive_skip v (pre post : list Rule) :
  asWithValidator E v = None ->
  Validate E v (pre ++ skipRule_When Skip false :: post)
  = Validate E v (pre ++ post).
Proof.
  intros Hwith. induction pre as [|rule pre IH].
  - cbn [app]. rewrite Validate_cons. cbn.
    unfold applyRule. by rewrite Hwith.
  - cbn [app]. rewrite !Validate_cons, IH. done.
Qed.

(** X2: a [Skip] inside a [Set] ends that Set only: when the rules of
    the Set before the marker pass, the Set passes and the rules that
    follow the Set in the enclosing list are still applied. *)
Theorem Validate_skip_in_set v (pre post rest : list Rule) :
  asWithValidator E v = None ->
  (forall r, r ∈ pre -> isActiveSkip r = false -> applyRule E v r = Done None) ->
  Validate E v (Set_ E (pre ++ Skip :: post) :: rest) = Validate E v rest.
Proof.
  intros Hwith Hpre. rewrite Validate_cons. cbn [isActiveSkip Set_].
  unfold applyRule. rewrite Hwith. unfold Set_. cbn [Rule_Validate].
  destruct (rulesLoop_reaches_skip E v 0 pre post Hpre) as (j & _ & Hloop).
  assert (Validate E v (pre ++ Skip :: post) = Done None) as ->; [|done].
  unfold Validate. by rewrite Hloop.
Qed.

End Dispatcher.

Section SelfValidation.
Context (E : Env).
Implicit Types (v : value).

(** ** verax.go: containers of validatable elements *)

(** The loop of [validateSlice]. *)
Lemma validateSlice_loop (e : GoType) (f : nat -> nat) (xs : list value)
  (outs : list error) (ers : option Fields) :
  Forall2 (fun x out => match x with
                        | VNil => out = None
                        | _ => mustValidate E x = Done out
                        end) xs outs ->
  forRange (fun '(i, elem) (ers : option Fields) =>
              ev ← Value_Interface elem;
              match ev with
              | VNil => Done ers
              | _ =>
                  err ← mustValidate E ev;
                  match err with
                  | Some e => Done (fieldsSet ers (Itoa i) (Some e))
                  | None => Done ers
                  end
              end)
           (imap (fun i x => (f i, x)) (Val e <$> xs)) ers
  = Done (collect ers (imap (fun i out => (Itoa (f i), out)) outs)).
Proof.
  intros H. revert f ers.
  induction H as [|x out xs outs Hx _ IH]; intros f ers; [done|].
  rewrite fmap_cons, !imap_cons, collect_cons.
  cbn [forRange Value_Interface mbind run_bind].
  destruct x; rewrite Hx; cbn [mbind run_bind snd fst];
    try destruct out as [err|]; apply (IH (f ∘ S)).
Qed.

(** X4: [Validate(v)] of a slice or an array whose element type
    implements [Validator] calls [Validate()] on every element that is
    not the nil interface (on a nil pointer too) and aggregates the
    errors into a Fields error keyed by the decimal index; it returns
    nil when no element fails. *)
Theorem Validate_slice_of_validatable v (e : GoType) (xs : list value)
  (outs : list error) :
  (exists nm, v = VArray nm e xs \/ v = VSlice nm e (Some xs)) ->
  asValidator E v = None ->
  Type_Implements E e validatableType = true ->
  Forall2 (fun x out => match x with
                        | VNil => out = None
                        | _ => mustValidate E x = Done out
                        end) xs outs ->
  exists res,
    Validate E v [] = Done res
    /\ aggregates (imap (fun i out => (Itoa i, out)) outs) res
    /\ forall ers, res = Some (XrrFields ers) ->
         forall i : nat,
           ers !! Itoa i = match outs !! i with
                           | Some (Some e) => Some (Some e)
                           | _ => None
                           end.
Proof.
  intros (nm & Hv) Hself Himpl Hxs.
  exists (nonEmptyOrNil (collect None (imap (fun i out => (Itoa i, out)) outs))).
  assert (aggregates (imap (fun i out => (Itoa i, out)) outs)
            (nonEmptyOrNil
               (collect None (imap (fun i out => (Itoa i, out)) outs))))
    as Hagg by apply aggregates_collect.
  split; [|split; [done|]].
  - rewrite Validate_no_rules.
    pose proof (validateSlice_loop e id xs outs None Hxs) as Hloop.
    change (imap (fun i x => (id i, x)) (Val e <$> xs))
      with (imap pair (Val e <$> xs)) in Hloop.
    destruct Hv as [-> | ->]; destruct nm as [n|];
      cbn [validateValue ValueOf typeOf named Value_Kind kindOf
           bool_decide decide_rel orb andb] in *.
    all: rewrite ?bool_decide_eq_false_2 by done; cbn [orb andb].
    all: rewrite Hself.
    all: unfold elemIsValidatable; cbn [elemOf underlying].
    all: rewrite Himpl; unfold validateSlice; cbn [Value_Elems].
    all: rewrite Hloop; cbn [mbind run_bind]; unfold nonEmptyOrNil, id.
    all: by destruct (_ <? _)%nat.
  - intros ers Hres. rewrite Hres in Hagg.
    by apply aggregates_indexed.
Qed.

(** The loop of [validateMap]. *)
Lemma validateMap_loop (rv : Value) (kt et : GoType)
  (m : list (value * value)) (outs : list error) (ers : option Fields) :
  Forall2 (fun kx out => exists x,
             Value_MapIndex E rv (Val kt kx.1) = Done (Val et x)
             /\ match x with
                | VNil => out = None
                | _ => mustValidate E x = Done out
                end) m outs ->
  forRange (fun key (ers : option Fields) =>
              entry ← Value_MapIndex E rv key;
              mv ← Value_Interface entry;
              match mv with
              | VNil => Done ers
              | _ =>
                  err ← mustValidate E mv;
                  match err with
                  | Some e =>
                      k ← Value_Interface key;
                      Done (fieldsSet ers (Sprintf_v E k) (Some e))
                  | None => Done ers
                  end
              end)
           ((fun kx => Val kt kx.1) <$> m) ers
  = Done (collect ers (zip ((fun kx => Sprintf_v E kx.1) <$> m) outs)).
Proof.
  intros H. revert ers.
  induction H as [|kx out m outs (x & Hidx & Hx) _ IH]; intros ers; [done|].
  rewrite !fmap_cons. cbn [zip zip_with]. rewrite collect_cons.
  cbn [forRange]. rewrite Hidx. cbn [Value_Interface mbind run_bind].
  destruct x; rewrite Hx; cbn [mbind run_bind snd fst];
    try destruct out as [err|]; apply IH.
Qed.

(** X5: [Validate(v)] of a map whose element type implements
    [Validator] calls [Validate()] on every entry that is not the nil
    interface and aggregates the errors into a Fields error keyed by
    the [%v] rendering of the key; it returns nil when no entry
    fails. *)
Theorem Validate_map_of_validatable (nm : tyname) (kt et : GoType)
  (m : list (value * value)) (outs : list error) :
  asValidator E (VMap nm kt et (Some m)) = None ->
  Type_Implements E et validatableType = true ->
  Forall2 (fun kx out => exists x,
             Value_MapIndex E (ValueOf (VMap nm kt et (Some m))) (Val kt kx.1)
             = Done (Val et x)
             /\ match x with
                | VNil => out = None
                | _ => mustValidate E x = Done out
                end) m outs ->
  exists res,
    Validate E (VMap nm kt et (Some m)) [] = Done res
    /\ aggregates (zip ((fun kx => Sprintf_v E kx.1) <$> m) outs) res.
Proof.
  intros Hself Himpl Hm.
  exists (nonEmptyOrNil
            (collect None (zip ((fun kx => Sprintf_v E kx.1) <$> m) outs))).
  split; [|apply aggregates_collect].
  rewrite Validate_no_rules.
  pose proof (validateMap_loop _ kt et m outs None Hm) as Hloop.
  destruct nm as [n|];
    cbn [validateValue ValueOf typeOf named Value_Kind kindOf
         bool_decide decide_rel orb andb] in *.
  all: rewrite ?bool_decide_eq_false_2 by done; cbn [orb andb].
  all: rewrite Hself.
  all: unfold elemIsValidatable; cbn [elemOf underlying].
  all: rewrite Himpl; unfold validateMap; cbn [Value_MapKeys].
  all: rewrite Hloop; cbn [mbind run_bind]; unfold nonEmptyOrNil.
  all: by destruct (_ <? _)%nat.
Qed.

End SelfValidation.

Section RuleProperties.
Context (E : Env).
Implicit Types (v : value) (rules : list Rule).

(** ** required.go, absent.go and not_nil.go *)

(** A nil value is empty, whatever the methods of its type. *)
Lemma IsEmpty_of_nil (fuel : nat) v (b : bool) :
  (IsNil v).1 = true -> IsEmpty E fuel v = Some b -> b = true.
Proof.
  intros Hnil. destruct fuel as [|fuel]; [done|].
  cbn [IsEmpty]. rewrite Hnil. congruence.
Qed.

(** X6: [Required] and [Empty] split the values between them: an empty
    value fails [Required] with [ErrReq] and passes [Empty], any other
    value passes [Required] and fails [Empty] with [ErrReqEmpty]. *)
Theorem Required_Empty_complement (fuel : nat) v (b : bool) :
  IsEmpty E fuel v = Some b ->
  requiredRule_Validate E fuel Required v
  = Some (if b then Some ErrReq else None)
  /\ absentRule_Validate E fuel Empty v
     = Some (if b then None else Some ErrReqEmpty).
Proof.
  intros Hempty. split.
  - unfold requiredRule_Validate. cbn. by rewrite Hempty.
  - unfold absentRule_Validate. cbn [Empty abs_condition abs_skipNil abs_err negb].
    destruct (IsNil v).1 eqn:Hnil.
    + by rewrite (IsEmpty_of_nil fuel v b Hnil Hempty).
    + rewrite Hempty. cbn. by destruct b.
Qed.

(** X7: [NotEmpty] fails exactly the values that are empty without
    being nil: a nil value passes it, and so does every value that
    passes [Required]. *)
Theorem NotEmpty_fails_iff (fuel : nat) v (b : bool) :
  IsEmpty E fuel v = Some b ->
  requiredRule_Validate E fuel NotEmpty v
  = Some (if b && negb (IsNil v).1 then Some ErrReqNotEmpty else None).
Proof.
  intros Hempty. unfold requiredRule_Validate.
  cbn [NotEmpty req_condition req_skipNil req_err negb andb].
  destruct (IsNil v).1; cbn [negb andb].
  - by rewrite andb_false_r.
  - rewrite Hempty. cbn. by rewrite andb_true_r.
Qed.

(** X8: [NotNil] and [Nil] split the values between them: the nil
    interface and the nil pointers, slices, maps, channels and
    functions fail [NotNil] and pass [Nil]; every other value, a zero
    value too, passes [NotNil] and fails [Nil]. *)
Theorem NotNil_Nil_complement (fuel : nat) v :
  ((v = VNil \/ isWrappedNil v = true)
   /\ notNilRule_Validate NotNil v = Some ErrReqNotNil
   /\ absentRule_Validate E fuel Nil v = Some None)
  \/ (v <> VNil /\ isWrappedNil v = false
      /\ notNilRule_Validate NotNil v = None
      /\ absentRule_Validate E fuel Nil v = Some (Some ErrReqNil)).
Proof.
  unfold notNilRule_Validate, absentRule_Validate.
  cbn [NotNil Nil nn_condition nn_err abs_condition abs_skipNil abs_err negb].
  destruct v as [| | |?[]| | | | |? ? ? []|? ? []|? ? []|? ? []| |? ? ? []|];
    try destruct nm; try destruct k; cbn; auto 10.
Qed.

(** X9: the order of [Code] and [Error] matters on a rule that keeps
    its error in one field: [Required.Code(code).Error(e)] fails with
    [e] as it is, the code being lost, while [Required.Error(e).Code(code)]
    fails with [e] wrapped with the code. *)
Theorem Required_Code_Error_order (fuel : nat) v (code : string) (e : Err) :
  IsEmpty E fuel v = Some true ->
  code <> "" ->
  GetCode E e <> code ->
  requiredRule_Validate E fuel
    (requiredRule_Error (requiredRule_Code E Required code) (Some e)) v
  = Some (Some e)
  /\ requiredRule_Validate E fuel
       (requiredRule_Code E (requiredRule_Error Required (Some e)) code) v
     = Some (Some (XrrWrap e code)).
Proof.
  intros Hempty Hcode He. unfold requiredRule_Validate.
  cbn [requiredRule_Error requiredRule_Code Required req_condition
       req_skipNil req_err negb andb].
  rewrite Hempty. cbn [mbind option_bind]. split; [done|].
  unfold setCode. by rewrite !bool_decide_eq_false_2.
Qed.

(** ** when.go and by.go *)


(** X11: a [By] rule with a custom code that is not empty, whose
    function fails, fails with an error of that code.  The error is
    the custom error if there is one and the function's error
    otherwise: returned as it is when it carries the code already, and
    wrapped with the code when it does not. *)
Theorem By_custom_code (r : ByRule) (code : string) v (e : Err) :
  code <> "" ->
  by_condition r = true ->
  by_fn r v = Done (Some e) ->
  ByRule_Validate E (ByRule_Code r code) v
  = Done (Some (if bool_decide (GetCode E (default e (by_err r)) = code)
                then default e (by_err r)
                else XrrWrap (default e (by_err r)) code))
  /\ GetCode E (if bool_decide (GetCode E (default e (by_err r)) = code)
                then default e (by_err r)
                else XrrWrap (default e (by_err r)) code) = code.
Proof.
  intros Hcode Hcond Hfn. split.
  - unfold ByRule_Validate.
    cbn [ByRule_Code by_condition by_fn by_err by_code].
    rewrite Hcond, Hfn. cbn [negb mbind run_bind].
    destruct (by_err r) as [custom|]; cbn [default]; unfold setCode.
    all: rewrite (bool_decide_eq_false_2 _ Hcode); unfold id.
    all: by destruct (bool_decide _).
  - case_bool_decide; [done|apply GetCode_wrap].
Qed.

(** ** The registry of named rules *)

(** X12: [Get] after [Set] returns the rule stored last under the name
    and leaves the other names as they were. *)
Theorem Named_Get_Set (n : gmap string (option Rule)) (name name' : string)
  (rule : option Rule) :
  Named_Get (Named_Set n name rule) name'
  = if decide (name = name') then rule else Named_Get n name'.
Proof.
  unfold Named_Get, Named_Set. rewrite lookup_insert.
  by destruct (decide (name = name')).
Qed.

(** X13: for a name that was never set [GetOrError] returns a rule that
    fails every value with [ErrUnkRule] and [GetOrNoop] one that passes
    every value.  A name set to the nil rule tells the two apart:
    [GetOrError] still returns its failing rule, [GetOrNoop] returns
    the nil rule that was stored. *)
Theorem Named_fallbacks (n : gmap string (option Rule)) (name : string) :
  (n !! name = None ->
   (exists r, Named_GetOrError n name = Some r
              /\ forall v, Rule_Validate r v = Done (Some ErrUnkRule))
   /\ (exists r, Named_GetOrNoop E n name = Some r
                 /\ forall v, Rule_Validate r v = Done None))
  /\ (exists r,
        Named_GetOrError (Named_Set n name None) name = Some r
        /\ forall v, Rule_Validate r v = Done (Some ErrUnkRule))
  /\ Named_GetOrNoop E (Named_Set n name None) name = None.
Proof.
  split; [|split].
  - intros Hn. unfold Named_GetOrError, Named_GetOrNoop, Named_Get.
    rewrite Hn. split; eexists; (split; [reflexivity|done]).
  - unfold Named_GetOrError, Named_Get, Named_Set. rewrite lookup_insert_eq.
    eexists. split; [reflexivity|done].
  - unfold Named_GetOrNoop, Named_Set. by rewrite lookup_insert_eq.
Qed.

End RuleProperties.

Section HelperProperties.
Context (E : Env).
Implicit Types (v : value).

(** ** helpers.go: conversions *)

(** X14: [EnsureString] and [StringOrBytes] accept the same values
    and give the same text for them: a string of any string type is
    returned as it is, a slice of type [[]byte], a nil one too, as its
    bytes.  Every other value that is not nil gets the error with the
    code [ECInvType] from [EnsureString] and no flag from
    [StringOrBytes].  On the nil interface [EnsureString] panics, and
    [StringOrBytes] sets no flag. *)
Theorem EnsureString_StringOrBytes v :
  (forall (nm : tyname) (s : string),
      v = VString nm s ->
      EnsureString v = Done (s, None)
      /\ StringOrBytes v = Done (true, s, false, None))
  /\ (forall bs : option (list value),
       v = VSlice None (TBasic (BUint U8)) bs ->
       EnsureString v = Done (bytesToString (default [] bs), None)
       /\ StringOrBytes v = Done (false, "", true, bs))
  /\ (v = VNil ->
      EnsureString v = Panic
      /\ StringOrBytes v = Done (false, "", false, None))
  /\ ((forall nm s, v <> VString nm s) ->
      (forall bs, v <> VSlice None (TBasic (BUint U8)) bs) ->
      v <> VNil ->
      EnsureString v
      = Done ("", Some (XrrNew "must be either a string or byte slice"
                               ECInvType))
      /\ StringOrBytes v = Done (false, "", false, None)).
Proof.
  unfold EnsureString, StringOrBytes.
  destruct v; try (destruct nm as [?|]); try (destruct k).
  all: cbn [ValueOf typeOf named Value_Kind kindOf Basic_kind Value_Type
            Value_String sliceContent mbind run_bind].
  all: rewrite ?(bool_decide_eq_true_2 (KString = KString)) by done.
  all: rewrite ?(bool_decide_eq_true_2 (KSlice = KSlice)) by done.
  all: rewrite ?(bool_decide_eq_false_2 (_ = KString)) by done.
  all: rewrite ?(bool_decide_eq_false_2 (_ = KSlice)) by done.
  all: try case_bool_decide; unfold bytesType in *; simplify_eq.
  all: split; [|split; [|split]].
  all: try (intros; simplify_eq; done).
  all: try (intros Hs Hb Hn; first [by edestruct Hs|by edestruct Hb|done]).
Qed.

(** X15: [ToInt] accepts exactly the signed integers of every width
    and [ToUint] exactly the unsigned ones, [uintptr] too, of a defined
    type as well; the number is returned as it is.  Any other value
    (a pointer to an integer, a float, nil) gets 0 and an error with the
    code [ECInvType]. *)
Theorem ToInt_ToUint_accept v :
  (forall n : Z, ToInt v = (n, None) <-> exists nm k, v = VInt nm k n)
  /\ (forall n : Z, ToUint v = (n, None) <-> exists nm k, v = VUint nm k n)
  /\ ((forall nm k n, v <> VInt nm k n) ->
      exists msg, ToInt v = (0, Some (XrrNew msg ECInvType)))
  /\ ((forall nm k n, v <> VUint nm k n) ->
      exists msg, ToUint v = (0, Some (XrrNew msg ECInvType))).
Proof.
  unfold ToInt, ToUint.
  destruct v; try (destruct nm as [?|]); try (destruct k);
    cbn [ValueOf typeOf named Value_Kind kindOf Basic_kind Value_Int
         Value_Uint].
  all: split; [|split; [|split]].
  all: try (intros n'; split; [intros Heq|intros (? & ? & Heq)];
            simplify_eq; eauto; fail).
  all: intros Hv; first [by edestruct Hv | eauto].
Qed.


(** ** helpers.go: IsEmpty and Indirect *)

(** No type has a [Value] method. *)
Lemma asValuer_none v : (forall t, mValue E t = None) -> asValuer E v = None.
Proof.
  intros Hno. unfold asValuer. destruct (typeOf v) as [t|]; [|done].
  cbn. by rewrite Hno.
Qed.

(** One turn of [IsEmpty]. *)
Lemma IsEmpty_S (fuel : nat) v :
  IsEmpty E (S fuel) v
  = if (IsNil v).1 then Some true
    else match asIsZeroer E v with
    | Some z => Some z
    | None =>
        match match asValuer E v with
              | Some (vr, None) => Some vr
              | _ => None
              end with
        | Some vr => IsEmpty E fuel vr
        | None =>
            match Value_Kind (ValueOf v) with
            | KString | KArray | KMap | KSlice =>
                Some (Nat.eqb (Value_Len (ValueOf v)) 0)
            | KInterface | KPtr =>
                if Value_IsNil (ValueOf v) then Some true
                else match Value_Elem (ValueOf v) with
                     | Val _ x => IsEmpty E fuel x
                     | Invalid => None
                     end
            | KStruct => Some (Nat.eqb (Value_NumField (ValueOf v)) 0)
            | _ => Some (Value_IsZero (ValueOf v))
            end
        end
    end.
Proof. done. Qed.

(** A result of [IsEmpty] does not depend on the bound. *)
Lemma IsEmpty_fuel_mono (fuel fuel' : nat) v (b : bool) :
  IsEmpty E fuel v = Some b -> (fuel <= fuel')%nat ->
  IsEmpty E fuel' v = Some b.
Proof.
  revert fuel' v b. induction fuel as [|fuel IH]; intros fuel' v b; [done|].
  intros H Hle. destruct fuel' as [|fuel']; [lia|].
  rewrite IsEmpty_S in *.
  destruct ((IsNil v).1); [done|].
  destruct (asIsZeroer E v); [done|].
  destruct (asValuer E v) as [[vr [e|]]|].
  2: { apply IH; [done|lia]. }
  all: destruct (Value_Kind (ValueOf v)); try done.
  all: destruct (Value_IsNil (ValueOf v)); try done.
  all: destruct (Value_Elem (ValueOf v)); try done.
  all: apply IH; [done|lia].
Qed.

(** X17: in a program where no type has a [Value] method [IsEmpty]
    returns for every value whose chain of pointers comes to an end:
    it calls itself once for every pointer it follows and for nothing
    else, so after [n] pointers it has returned within [n + 1] calls,
    with the same answer for every larger bound.  (On a pointer that
    reaches itself the code does not return; such values are not
    among the values here.) *)
Theorem IsEmpty_returns v :
  (forall t, mValue E t = None) ->
  exists b : bool,
    forall fuel : nat, (hops v < fuel)%nat -> IsEmpty E fuel v = Some b.
Proof.
  intros Hno.
  assert (forall (n : nat) v, (hops v <= n)%nat ->
            exists b : bool, IsEmpty E (S (hops v)) v = Some b) as H.
  { clear v. induction n as [|n IH]; intros v Hd.
    all: rewrite IsEmpty_S, (asValuer_none _ Hno).
    all: destruct (asIsZeroer E v);
      [destruct ((IsNil v).1); by eauto|].
    all: destruct v as [| | | | | | | | | |? ? [[a x]|]| | | |];
      try (destruct nm as [?|]); try (destruct k).
    all: cbn [IsNil ValueOf typeOf named Value_Kind kindOf Basic_kind
              Kind_num Z.leb Z.compare Pos.compare Pos.compare_cont andb
              Value_IsNil Value_Elem fst]; eauto.
    all: try match goal with
             | |- context [Value_IsNil ?x] => destruct (Value_IsNil x); eauto
             end.
    all: cbn [hops] in *; try lia.
    all: try match goal with
             | |- context [match ?o with Some _ => _ | None => _ end] =>
                 destruct o; eauto
             end.
    all: apply IH; lia. }
  destruct (H (hops v) v) as [b Hb]; [done|].
  exists b. intros fuel Hf. apply (IsEmpty_fuel_mono _ _ _ _ Hb). lia.
Qed.

(** X18: [IsEmpty] does not return for a value that is not nil, has no
    [IsZero] method and whose [Value] method returns the value itself:
    it calls itself on what [Value] returned, for ever. *)
Theorem IsEmpty_self_Valuer (fuel : nat) v :
  (IsNil v).1 = false ->
  asIsZeroer E v = None ->
  asValuer E v = Some (v, None) ->
  IsEmpty E fuel v = None.
Proof.
  intros Hnil Hz Hv. induction fuel as [|fuel IH]; [done|].
  by rewrite IsEmpty_S, Hnil, Hz, Hv.
Qed.


(** One turn of [Indirect]. *)
Lemma Indirect_eq v :
  Indirect E v
  = if (IsNil v).1 then VNil
    else match match asValuer E v with
               | Some (vr, None) => Some vr
               | _ => None
               end with
         | Some vr => vr
         | None =>
             match v with
             | VPtr _ _ (Some (_, x)) => Indirect E x
             | _ => v
             end
         end.
Proof. by destruct v. Qed.

(** X19: in a program where no type has a [Value] method [Indirect]
    follows pointers to their end: a nil value (the nil interface, a
    nil pointer, slice, map, channel or function) gives the nil
    interface, a pointer that is not nil gives what [Indirect] gives
    for the value it points to, and any other value is returned as it
    is.  So the result is the nil interface or a value that is neither
    nil nor a pointer, and applying [Indirect] once more changes
    nothing.  (This is for the values whose chain of pointers comes to
    an end, which the values here are.) *)
Theorem Indirect_without_Valuer v :
  (forall t, mValue E t = None) ->
  ((IsNil v).1 = true -> Indirect E v = VNil)
  /\ (forall (nm : tyname) (e : GoType) (a : positive) (x : value),
       v = VPtr nm e (Some (a, x)) -> Indirect E v = Indirect E x)
  /\ ((IsNil v).1 = false -> Value_Kind (ValueOf v) <> KPtr ->
      Indirect E v = v)
  /\ (Indirect E v = VNil
      \/ ((IsNil (Indirect E v)).1 = false
          /\ Value_Kind (ValueOf (Indirect E v)) <> KPtr))
  /\ Indirect E (Indirect E v) = Indirect E v.
Proof.
  intros Hno.
  assert (forall v, (IsNil v).1 = true -> Indirect E v = VNil) as Hnil.
  { intros w Hw. by rewrite Indirect_eq, Hw. }
  assert (forall nm e a x,
             Indirect E (VPtr nm e (Some (a, x))) = Indirect E x) as Hptr.
  { intros nm e a x. rewrite Indirect_eq, (asValuer_none _ Hno).
    by destruct nm. }
  assert (forall v, (IsNil v).1 = false -> Value_Kind (ValueOf v) <> KPtr ->
                    Indirect E v = v) as Hother.
  { intros w Hw Hk. rewrite Indirect_eq, Hw, (asValuer_none _ Hno).
    destruct w as [| | | | | | | | | |nm ? [[? ?]|]| | | |]; try done.
    by destruct nm. }
  assert (forall (n : nat) v, (hops v <= n)%nat ->
            (Indirect E v = VNil
             \/ ((IsNil (Indirect E v)).1 = false
                 /\ Value_Kind (ValueOf (Indirect E v)) <> KPtr))
            /\ Indirect E (Indirect E v) = Indirect E v) as H.
  { clear v. induction n as [|n IH]; intros v Hd.
    all: destruct ((IsNil v).1) eqn:Hv;
      [rewrite (Hnil v Hv); split; [by left|by apply Hnil]|].
    all: destruct (decide (Value_Kind (ValueOf v) = KPtr)) as [Hk|Hk];
      [|rewrite !(Hother v Hv Hk); split; [by right|done]].
    all: destruct v as [| | | | | | | | | |nm e [[a x]|]| | | |];
      try done; try (by destruct nm); try (by destruct nm; destruct k).
    + cbn [hops] in Hd. lia.
    + rewrite Hptr. apply IH. cbn [hops] in Hd. lia. }
  split; [apply Hnil|]. split; [by intros nm e a x ->|].
  split; [apply Hother|]. by apply (H (hops v)).
Qed.

End HelperProperties.

Section EachProperties.
Context (E : Env).
Implicit Types (v : value) (rules : list Rule).

(** ** each.go: the names of the errors of a map *)

(** X20: for a map whose keys are integers or strings [mapErrKey]
    tells the keys apart: two keys of the map's key type with the same
    name are the same key. *)
Theorem mapErrKey_injective (kt : GoType) (x y : value) :
  namedByContent (kindOf kt) = true ->
  typeOf x = Some kt ->
  typeOf y = Some kt ->
  mapErrKey (Val kt x) = mapErrKey (Val kt y) ->
  x = y.
Proof.
  intros Hk Hx Hy. unfold mapErrKey. cbn [Value_Kind].
  destruct x; try (destruct nm as [?|]); try (destruct k);
    cbn [typeOf named] in Hx; simplify_eq; try done.
  all: destruct y; try (destruct nm as [?|]); try (destruct k);
    cbn [typeOf named] in Hy; simplify_eq.
  all: cbn [kindOf Basic_kind Value_Int Value_Uint Value_String].
  all: intros Heq; try apply (inj pretty) in Heq; by subst.
Qed.

(** The entries the loop of [Each] over the keys of a map adds. *)
Lemma each_keys_names rules (vo : Value) (keys : list Value)
  (ers ers' : option Fields) (name : string) (x : error) :
  forRange (fun k (ers : option Fields) =>
              entry ← Value_MapIndex E vo k;
              val ← getInterface entry;
              err ← Validate E val rules;
              match err with
              | Some e => Done (fieldsSet ers (mapErrKey k) (Some e))
              | None => Done ers
              end) keys ers = Done ers' ->
  default ∅ ers' !! name = Some x ->
  default ∅ ers !! name = Some x
  \/ ((exists k, k ∈ keys /\ name = mapErrKey k) /\ exists e, x = Some e).
Proof.
  revert ers. induction keys as [|k keys IH]; intros ers.
  - cbn. intros [= <-]. auto.
  - cbn [forRange].
    destruct (Value_MapIndex E vo k) as [entry|]; [|done].
    cbn [mbind run_bind]. destruct (getInterface entry) as [val|]; [|done].
    cbn [mbind run_bind].
    destruct (Validate E val rules) as [[e|]|]; [| |done]; cbn [mbind run_bind].
    all: intros Hloop Hname.
    all: destruct (IH _ Hloop Hname) as [Hin|[(k' & Hin & ->) Hx]].
    all: try (right; split; [|done]; exists k';
              split; [apply elem_of_cons; by right|done]).
    + rewrite fieldsSet_lookup in Hin.
      destruct (decide (mapErrKey k = name)) as [<-|]; [|by left].
      injection Hin as <-. right. split; [|by eexists].
      exists k. split; [apply elem_of_cons; by left|done].
    + by left.
Qed.

(** The name of a key of a kind that is named by its type. *)
Lemma mapErrKey_by_type (kt : GoType) (k : value) :
  namedByType (kindOf kt) = true ->
  mapErrKey (Val kt k) = "<" ++ typeString kt ++ " Value>".
Proof.
  unfold mapErrKey, Value_String. cbn [Value_Kind].
  destruct (kindOf kt); try done.
Qed.

(** X21: for a map whose keys are of any other kind than integer,
    string, pointer and interface (a bool, a float, a struct, an array,
    a [uintptr]) [Each] stores the error of every entry under the same
    name, made of the key type: the Fields error it returns has that
    one entry, however many entries of the map failed. *)
Theorem Each_map_keys_named_by_type rules (nm : tyname) (kt et : GoType)
  (m : list (value * value)) (ers : Fields) :
  namedByType (kindOf kt) = true ->
  EachRule_Validate E (Each rules) (VMap nm kt et (Some m))
  = Done (Some (XrrFields ers)) ->
  exists e, ers = {[ "<" ++ typeString kt ++ " Value>" := Some e ]}.
Proof.
  intros Hk. unfold EachRule_Validate. cbn [Each each_rules].
  assert (Value_Kind (ValueOf (VMap nm kt et (Some m))) = KMap) as ->
    by (by destruct nm).
  assert (Value_MapKeys (ValueOf (VMap nm kt et (Some m)))
          = (fun kv => Val kt kv.1) <$> m) as -> by (by destruct nm).
  destruct (forRange _ _ None) as [ers1|] eqn:Hloop; [|done].
  cbn [mbind run_bind]. intros [= Hres].
  apply nonEmptyOrNil_Some in Hres as [[= ->] Hne].
  assert (forall name x, default ∅ ers1 !! name = Some x ->
            name = "<" ++ typeString kt ++ " Value>" /\ exists e, x = Some e)
    as Hall.
  { intros name x Hx.
    destruct (each_keys_names _ _ _ _ _ _ _ Hloop Hx)
      as [Hin|[(k & Hin & ->) He]]; [done|].
    apply list_elem_of_fmap in Hin as (kv & -> & _).
    split; [by apply mapErrKey_by_type|done]. }
  apply map_choose in Hne as (name & x & Hx).
  destruct (Hall _ _ Hx) as [-> [e ->]].
  exists e. apply map_eq. intros i.
  destruct (decide (i = "<" ++ typeString kt ++ " Value>")) as [->|Hi].
  - by rewrite Hx, lookup_singleton_eq.
  - rewrite lookup_singleton_ne by done.
    destruct (default ∅ ers1 !! i) as [y|] eqn:Hy; [|done].
    by destruct (Hall _ _ Hy).
Qed.

End EachProperties.

Section MapProperties.
Context (E : Env).
Implicit Types (v : value) (rules : list Rule).

(** ** map.go: the bindings of a Map rule *)

(** Storing bindings brings in no other binding. *)
Lemma keysStore_elem (l : list KeyRules) (k kr : KeyRules) :
  kr ∈ keysStore l k -> kr ∈ l \/ kr = k.
Proof.
  induction l as [|k' l IH]; cbn [keysStore].
  - intros ->%list_elem_of_singleton. by right.
  - destruct (any_eq (kr_key k') (kr_key k)).
    + intros [->|?]%elem_of_cons; [by right|].
      left. apply elem_of_cons. by right.
    + intros [->|H]%elem_of_cons; [left; apply elem_of_cons; by left|].
      destruct (IH H) as [?|?]; [|by right].
      left. apply elem_of_cons. by right.
Qed.

Lemma Map_keys_elem (keys : list KeyRules) (kr : KeyRules) :
  kr ∈ mr_keys (Map keys) -> kr ∈ keys.
Proof.
  unfold Map. cbn [mr_keys].
  induction keys as [|k keys IH] using rev_ind; [done|].
  rewrite foldl_app. cbn [foldl]. intros [H| ->]%keysStore_elem.
  - apply elem_of_app. left. by apply IH.
  - apply elem_of_app. right. by apply list_elem_of_singleton.
Qed.

(** On plain keys Go's [==] is equality. *)
Lemma any_eq_plain (x y : value) :
  plainKey x = true -> any_eq x y = true <-> x = y.
Proof.
  destruct x; try done; intros _; destruct y; cbn [any_eq]; try done.
  all: rewrite ?andb_true_iff, ?bool_decide_eq_true, ?Z.eqb_eq.
  all: intuition congruence.
Qed.

(** What is found after a binding has been stored. *)
Lemma keysFind_keysStore (l : list KeyRules) (k : KeyRules) (key : value) :
  Forall (fun kr => plainKey (kr_key kr) = true) l ->
  plainKey (kr_key k) = true ->
  keysFind (keysStore l k) key
  = if any_eq (kr_key k) key then Some k else keysFind l key.
Proof.
  intros Hl Hk. induction Hl as [|k' l Hk' _ IH]; cbn [keysStore keysFind].
  - done.
  - destruct (any_eq (kr_key k') (kr_key k)) eqn:Hsame; cbn [keysFind].
    + apply any_eq_plain in Hsame; [|done]. rewrite Hsame.
      by destruct (any_eq (kr_key k) key).
    + rewrite IH. destruct (any_eq (kr_key k') key) eqn:H1; [|done].
      destruct (any_eq (kr_key k) key) eqn:H2; [|done].
      apply any_eq_plain in H1, H2; [|done..]. subst key.
      assert (any_eq (kr_key k') (kr_key k) = true) as Heq
        by (by apply any_eq_plain).
      congruence.
Qed.

Lemma lastBinding_snoc (keys : list KeyRules) (k : KeyRules) (key : value) :
  lastBinding (keys ++ [k]) key
  = if any_eq (kr_key k) key then Some k else lastBinding keys key.
Proof.
  induction keys as [|kr keys IH]; cbn [app lastBinding].
  - done.
  - rewrite IH. by destruct (any_eq (kr_key k) key).
Qed.

(** The binding a [Map] rule holds for a key. *)
Lemma Map_keysFind (keys : list KeyRules) (key : value) :
  Forall (fun kr => plainKey (kr_key kr) = true) keys ->
  keysFind (mr_keys (Map keys)) key = lastBinding keys key.
Proof.
  induction keys as [|k keys IH] using rev_ind; [done|].
  intros [Hkeys Hk]%Forall_app. apply Forall_cons in Hk as [Hk _].
  rewrite lastBinding_snoc, <- IH by done.
  unfold Map. cbn [mr_keys]. rewrite foldl_app. cbn [foldl].
  apply keysFind_keysStore; [|done].
  apply Forall_forall. intros kr Hkr.
  apply (proj1 (Forall_forall _ _) Hkeys). by apply Map_keys_elem.
Qed.

(** X22: of the bindings given to [Map], the one in force for a key
    is the last binding of that key, wherever in the list it stands
    and whatever bindings of other keys follow it: [IsDefined] tells
    whether there is one and [IsOptional] is its flag; for a key
    without a binding [IsOptional] is true.  The keys are booleans,
    integers and strings. *)
Theorem Map_bindings (keys : list KeyRules) (key : value) :
  Forall (fun kr => plainKey (kr_key kr) = true) keys ->
  MapRule_IsDefined (Map keys) key
  = match lastBinding keys key with
    | Some _ => true
    | None => false
    end
  /\ MapRule_IsOptional (Map keys) key
     = match lastBinding keys key with
       | Some kr => kr_optional kr
       | None => true
       end.
Proof.
  intros Hkeys. unfold MapRule_IsDefined, MapRule_IsOptional.
  by rewrite Map_keysFind.
Qed.

(** ** map.go: the keys without a binding *)

Lemma keysDelete_fold_spec (keys extraKeys : list value) (k : value) :
  k ∈ foldl keysDelete extraKeys keys
  <-> k ∈ extraKeys /\ forall key, key ∈ keys -> any_eq k key = false.
Proof.
  split; [apply keysDelete_fold_elem|].
  revert extraKeys. induction keys as [|key keys IH]; intros extraKeys.
  - by intros [? _].
  - intros [Hk Hnone]. cbn [foldl]. apply IH. split.
    + apply list_elem_of_filter. split; [|done].
      apply Hnone, elem_of_cons. by left.
    + intros key' Hkey'. apply Hnone, elem_of_cons. by right.
Qed.

Lemma markUnexpected_lookup (extraKeys : list value) (name : string)
  (x : error) :
  default ∅ (markUnexpected E None extraKeys) !! name = Some x
  <-> x = Some ErrKeyUnexpected
      /\ exists k, k ∈ extraKeys /\ name = getErrorKeyName E k.
Proof.
  unfold markUnexpected.
  induction extraKeys as [|k l IH] using rev_ind.
  - cbn. split; [done|]. by intros (_ & k & ?%elem_of_nil & _).
  - rewrite foldl_app. cbn [foldl]. rewrite fieldsSet_lookup.
    destruct (decide (getErrorKeyName E k = name)) as [<-|Hne].
    + split.
      * intros [= <-]. split; [done|]. exists k. split; [|done].
        apply elem_of_app. right. by apply list_elem_of_singleton.
      * by intros [-> _].
    + rewrite IH. split.
      * intros (-> & k' & Hk' & ->). split; [done|]. exists k'.
        split; [|done]. apply elem_of_app. by left.
      * intros (-> & k' & Hk' & ->). split; [done|]. exists k'.
        split; [|done]. apply elem_of_app in Hk' as [?|Hk']; [done|].
        apply list_elem_of_singleton in Hk'. by subst.
Qed.

(** X23: when unknown keys are not allowed and no binding has an
    error, [Map] returns a Fields error with [ErrKeyUnexpected] under
    the name of every key of the map that equals the key of no binding,
    and with nothing else; it returns nil when there is no such key. *)
Theorem Map_unexpected_keys (r : MapRule) (nm : tyname) (kt et : GoType)
  (m : list (value * value)) :
  mr_allowUnknown r = false ->
  Forall (fun kr =>
            keyError E (ValueOf (VMap nm kt et (Some m))) kt kr = Done None)
         (mr_keys r) ->
  exists res,
    MapRule_Validate E r (VMap nm kt et (Some m)) = Done res
    /\ match res with
       | None =>
           forall k, k ∈ m.*1 ->
             exists kr, kr ∈ mr_keys r /\ any_eq k (kr_key kr) = true
       | Some (XrrFields ers) =>
           forall name x,
             ers !! name = Some x
             <-> x = Some ErrKeyUnexpected
                 /\ exists k, k ∈ m.*1
                      /\ (forall kr, kr ∈ mr_keys r ->
                                     any_eq k (kr_key kr) = false)
                      /\ name = getErrorKeyName E k
       | Some _ => False
       end.
Proof.
  intros Hallow Hkeys. eexists. split.
  { rewrite MapRule_Validate_loop, keyLoop_all_nil by done.
    rewrite Hallow. cbn [negb mbind run_bind]. reflexivity. }
  set (extra := foldl keysDelete m.*1 (kr_key <$> mr_keys r)).
  assert (forall k, k ∈ extra
                    <-> k ∈ m.*1 /\ forall kr, kr ∈ mr_keys r ->
                                               any_eq k (kr_key kr) = false)
    as Hextra.
  { intros k. unfold extra. rewrite keysDelete_fold_spec.
    split; intros [Hk Hnone]; (split; [done|]).
    - intros kr Hkr. apply Hnone, list_elem_of_fmap. by exists kr.
    - intros key (kr & -> & Hkr)%list_elem_of_fmap. by apply Hnone. }
  destruct (nonEmptyOrNil (markUnexpected E None extra)) as [e|] eqn:Hres.
  - apply nonEmptyOrNil_Some in Hres as [-> _].
    intros name x. rewrite markUnexpected_lookup.
    split; intros (-> & k & Hk & Hname).
    + apply Hextra in Hk as [? ?]. eauto.
    + destruct Hname as [Hnone ->]. split; [done|]. exists k.
      split; [|done]. apply Hextra. done.
  - apply nonEmptyOrNil_None in Hres. intros k Hk.
    destruct (decide (Forall (fun kr => any_eq k (kr_key kr) = false)
                             (mr_keys r))) as [Hall|Hex].
    + assert (k ∈ extra) as Hin
        by (apply Hextra; split; [done|]; by apply Forall_forall).
      assert (default ∅ (markUnexpected E None extra)
                !! getErrorKeyName E k = Some (Some ErrKeyUnexpected)) as Hl
        by (apply markUnexpected_lookup; eauto).
      by rewrite Hres in Hl.
    + apply (not_Forall_Exists _) in Hex.
      apply Exists_exists in Hex as (kr & Hkr & Hne).
      exists kr. split; [done|]. by apply not_false_iff_true.
Qed.

(** ** map.go: the errors of the bindings *)

(** Converting a value to its own type changes nothing. *)
Lemma setName_own_type (k : value) (kt : GoType) :
  typeOf k = Some kt -> setName (nameOf kt) k = k /\ kindOf kt <> KInterface.
Proof.
  destruct k; try (destruct nm as [?|]); try (destruct k);
    cbn [typeOf named]; intros [= <-]; done.
Qed.

(** X29: for a binding whose key has the key type of the map,
    the error of the binding is the result of [Validate] on the entry
    with the binding's rules when the map has the key, and when it has
    not, [ErrKeyMissing] for a required key and nil for an optional
    one. *)
Theorem keyError_own_key_type (nm : tyname) (kt et : GoType)
  (m : list (value * value)) (kr : KeyRules) :
  typeOf (kr_key kr) = Some kt ->
  keyError E (ValueOf (VMap nm kt et (Some m))) kt kr
  = match mapLookup m (kr_key kr) with
    | Some x => Validate E x (kr_rules kr)
    | None => Done (if kr_optional kr then None else Some ErrKeyMissing)
    end.
Proof.
  intros Hkey. destruct (setName_own_type _ _ Hkey) as [Hname Hkind].
  unfold keyError, ValueOf. rewrite Hkey. cbn [Value_Type mbind run_bind].
  assert (AssignableTo E kt kt = true) as Hassign.
  { unfold AssignableTo, directlyAssignable.
    by rewrite bool_decide_eq_true_2. }
  rewrite Hassign. cbn [negb typeOf].
  assert (Value_MapIndex E (Val (named nm (TMap kt et)) (VMap nm kt et (Some m)))
            (Val kt (kr_key kr))
          = Done match mapLookup m (kr_key kr) with
                 | Some x => Val et x
                 | None => Invalid
                 end) as ->.
  { cbn [typeOf Value_MapIndex]. rewrite Hassign.
    by rewrite (bool_decide_eq_false_2 _ Hkind), Hname. }
  cbn [mbind run_bind].
  destruct (mapLookup m (kr_key kr)) as [x|]; cbn; [done|].
  by destruct (kr_optional kr).
Qed.

(** The loop over bindings none of which has an error with the code
    [ECInternal]. *)
Lemma keyLoop_collect (allowUnknown : bool) (val : Value) (kt : GoType)
  (keys : list KeyRules) (outs : list error) (ers : option Fields)
  (extraKeys : list value) :
  Forall2 (fun kr out =>
             keyError E val kt kr = Done out
             /\ forall e, out = Some e -> GetCode E e <> ECInternal)
          keys outs ->
  forRangeRet (keyStep E allowUnknown val kt) keys (ers, extraKeys)
  = Done (Continue
            (collect ers
               (zip ((fun kr => getErrorKeyName E (kr_key kr)) <$> keys) outs),
             if negb allowUnknown
             then foldl keysDelete extraKeys (kr_key <$> keys)
             else extraKeys)).
Proof.
  intros H. revert ers extraKeys.
  induction H as [|kr out keys outs [Hkr Hout] _ IH]; intros ers extraKeys.
  - by destruct allowUnknown.
  - rewrite !fmap_cons. cbn [zip zip_with]. rewrite collect_cons.
    cbn [forRangeRet fst snd].
    assert (keyStep E allowUnknown val kt kr (ers, extraKeys)
            = Done (Continue
                      (match out with
                       | Some e =>
                           fieldsSet ers (getErrorKeyName E (kr_key kr)) (Some e)
                       | None => ers
                       end,
                       if negb allowUnknown
                       then keysDelete extraKeys (kr_key kr)
                       else extraKeys))) as ->.
    { unfold keyStep. rewrite Hkr. cbn [mbind run_bind].
      destruct out as [e|]; [|done].
      by rewrite (bool_decide_eq_false_2 _ (Hout e eq_refl)). }
    cbn [mbind run_bind]. rewrite IH. by destruct allowUnknown.
Qed.

(** X30: when unknown keys are allowed, or every key of the map has a
    binding, and no binding has an error with the code [ECInternal],
    [Map] returns nil when no binding has an error and otherwise a
    Fields error with the error of every failing binding under the
    [%v] rendering of its key, and with nothing else. *)
Theorem Map_aggregates (r : MapRule) (nm : tyname) (kt et : GoType)
  (m : list (value * value)) (outs : list error) :
  (mr_allowUnknown r = true
   \/ forall k, k ∈ m.*1 ->
        exists kr, kr ∈ mr_keys r /\ any_eq k (kr_key kr) = true) ->
  Forall2 (fun kr out =>
             keyError E (ValueOf (VMap nm kt et (Some m))) kt kr = Done out
             /\ forall e, out = Some e -> GetCode E e <> ECInternal)
          (mr_keys r) outs ->
  exists res,
    MapRule_Validate E r (VMap nm kt et (Some m)) = Done res
    /\ aggregates
         (zip ((fun kr => getErrorKeyName E (kr_key kr)) <$> mr_keys r) outs)
         res.
Proof.
  intros Hcover Hkeys. eexists. split; [|apply aggregates_collect].
  rewrite MapRule_Validate_loop, (keyLoop_collect _ _ _ _ outs) by done.
  cbn [mbind run_bind]. destruct (mr_allowUnknown r) eqn:Hallow; cbn [negb].
  { done. }
  destruct Hcover as [?|Hcover]; [done|].
  assert (foldl keysDelete m.*1 (kr_key <$> mr_keys r) = []) as ->.
  { destruct (foldl keysDelete _ _) as [|k rest] eqn:Hfold; [done|].
    assert (k ∈ foldl keysDelete m.*1 (kr_key <$> mr_keys r)) as Hk
      by (rewrite Hfold; apply elem_of_cons; by left).
    apply keysDelete_fold_elem in Hk as [Hk Hnone].
    destruct (Hcover k Hk) as (kr & Hkr & Heq).
    rewrite Hnone in Heq; [done|]. apply list_elem_of_fmap. by exists kr. }
  unfold markUnexpected. cbn [foldl]. unfold nonEmptyOrNil, fieldsLen.
  done.
Qed.

End MapProperties.

Section StructProperties.
Context (E : Env).
Implicit Types (v : value) (rules : list Rule).

(** ** struct.go: the field search and the names *)

(** X24: [findStructField] finds a field exactly when a declared field
    of the struct, or of a struct it embeds anonymously (directly or
    through a pointer), stands at the address of the pointer and has
    the type the pointer points to; the field it returns is such a
    field. *)
Theorem findStructField_correct (s : value) (f : Value) :
  (forall sf, findStructField s f = Some sf ->
              FieldAt (Value_Pointer f) (pointeeType f) s sf)
  /\ (is_Some (findStructField s f)
      <-> exists sf, FieldAt (Value_Pointer f) (pointeeType f) s sf).
Proof.
  split; [apply findStructField_sound|]. split.
  - intros [sf Hsf]. exists sf. by apply findStructField_sound.
  - intros [sf Hsf]. by apply findStructField_complete in Hsf.
Qed.

Lemma beforeComma_comma_free (s : string) (a b : string) :
  beforeComma s <> a ++ String ","%char b.
Proof.
  revert a. induction s as [|c s IH]; intros a; cbn [beforeComma].
  - by destruct a.
  - destruct (Ascii.eqb c ","%char) eqn:Hc; [by destruct a|].
    destruct a as [|c' a]; cbn.
    + intros [= -> _]. by rewrite Ascii.eqb_refl in Hc.
    + intros [= _ H]. by apply IH in H.
Qed.

(** X25: the name of a field's error is the Go name of the field or a
    name from a struct tag, read under the binding's tag key when it
    has one and under [ErrorTag] otherwise; a name from a tag is the
    tag value up to its first comma, and it is neither empty nor
    ["-"] as the whole tag value. *)
Theorem getErrorFieldName_cases (fieldTag : string) (f : FieldDecl) :
  let key := if bool_decide (fieldTag = "") then ErrorTag E else fieldTag in
  let tag := Tag_Get (fd_tag f) key in
  (getErrorFieldName E fieldTag f = fd_name f
   /\ (tag = "" \/ tag = "-" \/ exists rest, tag = String ","%char rest))
  \/ (getErrorFieldName E fieldTag f = beforeComma tag
      /\ beforeComma tag <> ""
      /\ tag <> "-"
      /\ (forall a b, beforeComma tag <> a ++ String ","%char b)
      /\ exists rest, tag = beforeComma tag ++ rest).
Proof.
  intros key tag. unfold getErrorFieldName. fold key. fold tag.
  assert (forall s, exists rest, s = beforeComma s ++ rest) as Hpre.
  { induction s as [|c s [rest IH]]; [by exists ""|]. cbn [beforeComma].
    destruct (Ascii.eqb c ","%char); [by eexists|].
    exists rest. by rewrite IH at 1. }
  repeat case_bool_decide; cbn [negb andb]; auto 6.
  - left. split; [done|]. right. right.
    destruct tag as [|c rest]; [done|]. cbn [beforeComma] in *.
    destruct (Ascii.eqb c ","%char) eqn:Hc; [|done].
    apply Ascii.eqb_eq in Hc as ->. by eexists.
  - right. split; [done|]. split; [done|]. split; [done|].
    split; [apply beforeComma_comma_free|apply Hpre].
Qed.

(** ** struct.go: the errors of the fields *)

(** The loop over bindings that resolve and whose errors are stored
    under the name of the field. *)
Lemma fieldLoop_collect (s : value) (f : nat -> nat) (fields : list FieldRules)
  (res : list (FieldDecl * error)) (ers : option Fields) :
  Forall2 (fun fr so =>
             Value_Kind (ValueOf (fr_fieldPtr fr)) = KPtr
             /\ findStructField s (ValueOf (fr_fieldPtr fr)) = Some so.1
             /\ (exists t x, Value_Elem (ValueOf (fr_fieldPtr fr)) = Val t x
                             /\ Validate E x (fr_rules fr) = Done so.2)
             /\ forall e, so.2 = Some e ->
                  GetCode E e <> ECInternal
                  /\ (fd_anon so.1 = false \/ asFielder e = None))
          fields res ->
  forRangeRet (fieldStep E s) (imap (fun i fr => (f i, fr)) fields) ers
  = Done (Continue
            (collect ers
               (zip_with (fun fr so =>
                            (getErrorFieldName E (fr_tag fr) so.1, so.2))
                         fields res))).
Proof.
  intros H. revert f ers.
  induction H as [|fr [sf out] fields res
                    (Hptr & Hsf & (t & x & Hx & Hval) & Hout) _ IH];
    intros f ers; [done|].
  rewrite imap_cons. cbn [zip_with]. rewrite collect_cons.
  cbn [forRangeRet fst snd] in *.
  assert (fieldStep E s (f 0%nat, fr) ers
          = Done (Continue match out with
                           | Some e =>
                               fieldsSet ers
                                 (getErrorFieldName E (fr_tag fr) sf) (Some e)
                           | None => ers
                           end)) as ->.
  { unfold fieldStep. rewrite Hptr, Hsf, Hx. cbn [negb Value_Interface].
    cbn [mbind run_bind]. rewrite Hval. cbn [mbind run_bind].
    rewrite (bool_decide_eq_true_2 (KPtr = KPtr)) by done. cbn [negb].
    destruct out as [e|]; [|done].
    destruct (Hout e eq_refl) as [Hcode Hflat].
    rewrite (bool_decide_eq_false_2 _ Hcode).
    by destruct Hflat as [-> | ->]; [|destruct (fd_anon sf)]. }
  cbn [mbind run_bind]. apply (IH (f ∘ S)).
Qed.

(** X26: [ValidateStruct] on bindings that all point to fields of the
    struct returns what [Filter] makes of the Fields map in which the
    error of every failing field stands under the name
    [getErrorFieldName] gives it, and nothing else (the nil map when no
    field fails); this is for errors whose code is not [ECInternal]
    and that are not the Fields error of an anonymous field. *)
Theorem ValidateStruct_aggregates (pnm : tyname) (e : GoType) (a : positive)
  (s : value) (fields : list FieldRules) (res : list (FieldDecl * error)) :
  kindOf e = KStruct ->
  Forall2 (fun fr so =>
             Value_Kind (ValueOf (fr_fieldPtr fr)) = KPtr
             /\ findStructField s (ValueOf (fr_fieldPtr fr)) = Some so.1
             /\ (exists t x, Value_Elem (ValueOf (fr_fieldPtr fr)) = Val t x
                             /\ Validate E x (fr_rules fr) = Done so.2)
             /\ forall e, so.2 = Some e ->
                  GetCode E e <> ECInternal
                  /\ (fd_anon so.1 = false \/ asFielder e = None))
          fields res ->
  exists ers : option Fields,
    ValidateStruct E (VPtr pnm e (Some (a, s))) fields
    = Done (Fields_Filter ers)
    /\ (forall name x,
          default ∅ ers !! name = Some x ->
          exists (i : nat) fr sf err,
            fields !! i = Some fr /\ res !! i = Some (sf, Some err)
            /\ name = getErrorFieldName E (fr_tag fr) sf /\ x = Some err)
    /\ (forall (i : nat) fr sf err,
          fields !! i = Some fr -> res !! i = Some (sf, Some err) ->
          is_Some (default ∅ ers !! getErrorFieldName E (fr_tag fr) sf)).
Proof.
  intros He Hfields.
  set (outcomes := zip_with (fun fr so =>
                     (getErrorFieldName E (fr_tag fr) so.1, so.2)) fields res).
  exists (collect None outcomes). split; [|split].
  - rewrite ValidateStruct_loop by done.
    pose proof (fieldLoop_collect s id fields res None Hfields) as Hloop.
    change (imap (fun i fr => (id i, fr)) fields) with (imap pair fields) in Hloop.
    by rewrite Hloop.
  - intros name x Hx.
    apply collect_entries in Hx as [Hx|(err & -> & Hin)]; [done|].
    apply elem_of_lookup_zip_with in Hin as (i & fr & [sf out] & Heq & Hfr & Hso).
    cbn [fst snd] in Heq. injection Heq as -> <-.
    by exists i, fr, sf, err.
  - intros i fr sf err Hfr Hso. eapply collect_failed.
    apply elem_of_lookup_zip_with. by exists i, fr, (sf, Some err).
Qed.


(** X27: [ValidateStruct] accepts nothing but a pointer to a struct:
    a value that is no pointer (the nil interface, a struct passed by
    value) and a pointer to anything but a struct get
    [ErrNotStructPtr], whatever the bindings; a nil pointer, of any
    type, gets nil. *)
Theorem ValidateStruct_guards (fields : list FieldRules) :
  (forall v, Value_Kind (ValueOf v) <> KPtr ->
             ValidateStruct E v fields = Done (Some ErrNotStructPtr))
  /\ (forall (nm : tyname) (e : GoType) (a : positive) (x : value),
         kindOf e <> KStruct ->
         ValidateStruct E (VPtr nm e (Some (a, x))) fields
         = Done (Some ErrNotStructPtr))
  /\ (forall (nm : tyname) (e : GoType),
         ValidateStruct E (VPtr nm e None) fields = Done None).
Proof.
  split; [|split].
  - intros v Hv. unfold ValidateStruct.
    by rewrite (bool_decide_eq_false_2 _ Hv).
  - intros nm e a x He. unfold ValidateStruct.
    destruct nm; cbn [ValueOf typeOf named Value_Kind kindOf Value_IsNil
                      Value_Elem].
    all: rewrite (bool_decide_eq_true_2 (KPtr = KPtr)) by done.
    all: by rewrite (bool_decide_eq_false_2 _ He).
  - intros nm e. unfold ValidateStruct.
    destruct nm; cbn [ValueOf typeOf named Value_Kind kindOf Value_IsNil
                      Value_Elem].
    all: by rewrite (bool_decide_eq_true_2 (KPtr = KPtr)) by done.
Qed.

(** ** What the container rules return *)

(** X28: an error of a rule never leaves [Each], [Map] or
    [ValidateStruct] bare.  What they return is nil, a Fields error,
    or an error of their own: [Each] the type error with the code
    [ECInvType], [Map] an error made with the code [ECInternal], and
    [ValidateStruct] an error with the code [ECInternal] that is no
    Fields error. *)
Theorem container_errors_shape :
  (forall (r : EachRule) v (e : Err),
      EachRule_Validate E r v = Done (Some e) ->
      (exists fs, e = XrrFields fs)
      \/ e = XrrNew "must be an iterable" ECInvType)
  /\ (forall (r : MapRule) v (e : Err),
      MapRule_Validate E r v = Done (Some e) ->
      (exists fs, e = XrrFields fs) \/ exists msg, e = XrrNew msg ECInternal)
  /\ (forall v (fields : list FieldRules) (e : Err),
      ValidateStruct E v fields = Done (Some e) ->
      (exists fs, e = XrrFields fs)
      \/ (GetCode E e = ECInternal /\ asFielder e = None)).
Proof.
  split; [|split].
  - intros r v e. unfold EachRule_Validate.
    destruct (Value_Kind (ValueOf v)); try (intros [= <-]; by right);
      (destruct (forRange _ _ _) as [ers|]; cbn [mbind run_bind]; [|done]);
      intros [= H]; apply nonEmptyOrNil_Some in H as [-> _]; eauto.
  - intros r v e. unfold MapRule_Validate.
    destruct (negb _); [intros [= <-]; right; by eexists|].
    destruct (Value_IsNil _); [done|].
    destruct (Value_Type _) as [t|]; cbn [mbind run_bind]; [|done].
    destruct (keyOf t) as [kt|]; [|done].
    destruct (forRangeRet _ _ _) as [[[ers extraKeys]|err]|] eqn:Hloop;
      cbn [mbind run_bind]; [| |done].
    + intros [= H]. apply nonEmptyOrNil_Some in H as [-> _]. eauto.
    + intros [= ->]. apply keyLoop_Return in Hloop as [msg [= ->]]. eauto.
  - intros v fields e. unfold ValidateStruct.
    destruct (_ || _); [intros [= <-]; by right|].
    destruct (Value_IsNil _); [done|].
    destruct (Value_Interface _) as [s|]; cbn [mbind run_bind]; [|done].
    destruct (forRangeRet _ _ _) as [[ers|err]|] eqn:Hloop;
      cbn [mbind run_bind]; [| |done].
    + unfold Fields_Filter. destruct (_ =? _)%nat; [done|].
      intros [= <-]. eauto.
    + intros [= ->].
      apply fieldLoop_Return in Hloop as (e' & [= <-] & ? & ?). by right.
Qed.

End StructProperties.

(** * The properties at work on the sample program *)

(** ** C6: the key type test of Map *)

(** C6 is right and the code is not.  On a [map[any]int] that is empty
    and not nil, the binding of the string key ["x"] is required and its
    key is absent; the key is assignable to the declared key type [any],
    so the specification asks for the key-missing error under ["x"].
    The code tests assignability the other way round, from the key type
    to the type of the key, finds [any] not assignable to [string] and
    returns the internal error for a key of the wrong type. *)
Theorem C6_key_type_test_reversed :
  AssignableTo Sample.env Sample.tString Sample.tAny = true
  /\ AssignableTo Sample.env Sample.tAny Sample.tString = false
  /\ kr_optional Sample.keyX = false
  /\ Value_MapIndex Sample.env (ValueOf Sample.anyKeyMap)
       (ValueOf (kr_key Sample.keyX)) = Done Invalid
  /\ MapRule_Validate Sample.env (MapRule_AllowUnknown (Map [Sample.keyX]))
       Sample.anyKeyMap
     = Done (Some (XrrNew "x: key not the correct type" ECInternal))
  /\ MapRule_Validate Sample.env (MapRule_AllowUnknown (Map [Sample.keyX]))
       Sample.anyKeyMap
     <> Done (Some (XrrFields {[ "x" := Some ErrKeyMissing ]})).
Proof.
  split; [reflexivity|]. split; [reflexivity|]. split; [reflexivity|].
  split; [reflexivity|]. split; [reflexivity|]. discriminate.
Qed.


Lemma C1_skip_marker_counterexample :
  asWithValidator Sample.envVW (Sample.modelVW "too_long")
  = Some (Sample.ModelVW_ValidateWith (Sample.modelVW "too_long"))
  /\ Rule_Validate Sample.pass (Sample.modelVW "too_long") = Done None
  /\ Validate Sample.envVW (Sample.modelVW "too_long")
       ([Sample.pass] ++ Skip :: [])
     = Done (Some Sample.errTst).
Proof. split; [|split]; reflexivity. Qed.

Lemma C1_skip_marker_amended_witness :
  Validate Sample.env (Sample.int 5)
    ([Sample.pass] ++ Skip :: [Sample.failWith Sample.errMust]) = Done None
  /\ Validate Sample.env (Sample.int 5)
       ([Sample.pass; Sample.failWith Sample.errMust; Sample.pass]
          ++ Skip :: [Sample.pass])
     = Done (Some Sample.errMust)
  /\ Validate Sample.envVW (Sample.modelVW "111")
       ([Sample.pass] ++ Skip :: [Sample.failWith Sample.errMust])
     = Done None.
Proof.
  split; [|split].
  - apply (proj1 (C1_skip_marker_amended Sample.env (Sample.int 5)
                    [Sample.pass] [Sample.failWith Sample.errMust])
             eq_refl).
    intros r Hr _. apply list_elem_of_singleton in Hr. by subst r.
  - apply (proj2 (proj1 (C1_skip_marker_amended Sample.env (Sample.int 5)
                           [Sample.pass; Sample.failWith Sample.errMust;
                            Sample.pass]
                           [Sample.pass])
                    eq_refl)
             [Sample.pass] [Sample.pass] (Sample.failWith Sample.errMust)).
    + reflexivity.
    + intros r Hr. apply list_elem_of_singleton in Hr. by subst r.
    + reflexivity.
    + reflexivity.
  - apply (proj1 (proj2 (C1_skip_marker_amended Sample.envVW
                           (Sample.modelVW "111")
                           [Sample.pass] [Sample.failWith Sample.errMust])
                    (Sample.ModelVW_ValidateWith (Sample.modelVW "111"))
                    eq_refl)).
    intros r Hr _. apply list_elem_of_singleton in Hr. by subst r.
Defined.

(** C2 fails as stated.  The only element of [[]*int{&x}], [x = 5], is a
    pointer that is not nil; the value it refers to is the int 5, which
    the rule [onlyInt] accepts; yet [Each(onlyInt)] reports the element:
    the rule ran against the pointer, not against the referenced
    value. *)
Lemma C2_each_counterexample :
  Indirect Sample.env (Sample.intPtr 8 5) = Sample.int 5
  /\ Validate Sample.env (Sample.int 5) [Sample.onlyInt] = Done None
  /\ EachRule_Validate Sample.env (Each [Sample.onlyInt]) Sample.ptrSlice
     = Done (Some (XrrFields {[ "0" := Some Sample.errMust ]})).
Proof. split; [reflexivity|]. split; reflexivity. Qed.

Lemma C2_each_amended_witness :
  exists res,
    EachRule_Validate Sample.env (Each [Sample.onlyInt]) Sample.anySlice = Done res
    /\ aggregates (imap (fun i out => (Itoa i, out))
                        [None; Some Sample.errMust; Some Sample.errMust]) res
    /\ forall ers, res = Some (XrrFields ers) ->
         forall i : nat,
           ers !! Itoa i
           = match [None; Some Sample.errMust; Some Sample.errMust] !! i with
             | Some (Some e) => Some (Some e)
             | _ => None
             end.
Proof.
  destruct (C2_each_amended Sample.env [Sample.onlyInt])
    as (_ & _ & _ & _ & Hslice & _).
  apply (Hslice Sample.anySlice Sample.tAny
           [Sample.int 5; VNil; Sample.intPtr 8 5]).
  - exists None. right. by left.
  - repeat constructor.
Defined.

(** C3 fails as stated.  A nil [*int] carries a type, yet [IsNil]
    answers [isNil = true] for it. *)
Lemma C3_IsNil_counterexample :
  typeOf Sample.nilIntPtr = Some (TPtr Sample.tInt)
  /\ Sample.nilIntPtr <> VNil
  /\ IsNil Sample.nilIntPtr = (true, true).
Proof. split; [reflexivity|]. split; [discriminate|reflexivity]. Qed.

Lemma C3_IsNil_amended_witness :
  IsNil Sample.nilIntPtr = (true, true)
  /\ IsNil VNil = (true, false)
  /\ IsNil (Sample.int 0) = (false, false).
Proof.
  split; [|split].
  - by apply (C3_IsNil_amended Sample.nilIntPtr).
  - by apply (C3_IsNil_amended VNil).
  - by apply (C3_IsNil_amended (Sample.int 0)).
Defined.

Lemma C8_IsEmpty_struct_witness :
  IsEmpty Sample.env 1 Sample.zeroPlanet = Some false.
Proof.
  by apply (C8_IsEmpty_struct Sample.env 0 (Some "Planet")
              "struct { A int; B string }"
              [(Sample.declA, 16%positive, Sample.int 0);
               (Sample.declB, 24%positive, Sample.str "")]).
Defined.

Lemma C9_setCode_witness :
  setCode Sample.env (Some Sample.errMust) "ECCustom"
  = Some (XrrWrap Sample.errMust "ECCustom")
  /\ setCode Sample.env (Some Sample.errMust) "ECMustInt" = Some Sample.errMust.
Proof.
  split.
  - by apply (C9_setCode Sample.env).
  - by apply (proj1 (proj2 (C9_setCode Sample.env))).
Defined.

Lemma C10_nil_map_witness :
  MapRule_Validate Sample.env (Map [Key (Sample.str "name") [Sample.pass]])
    Sample.nilMapPtr = Done None.
Proof.
  by apply (proj2 (C10_nil_map Sample.env
                     (Map [Key (Sample.str "name") [Sample.pass]]))).
Defined.

(** C4 fails as stated.  The second binding supplies a pointer that
    corresponds to no field of the struct, yet [ValidateStruct] returns
    the field-not-pointer error of the first binding, which was given a
    value and not a pointer. *)
Lemma C4_field_not_found_counterexample :
  Value_Kind (ValueOf Sample.ptrElsewhere) = KPtr
  /\ findStructField Sample.planet (ValueOf Sample.ptrElsewhere) = None
  /\ ValidateStruct Sample.env Sample.planetPtr
       [Field (Sample.int 5) [Sample.pass];
        Field Sample.ptrElsewhere [Sample.pass]]
     = Done (Some (ErrFieldPointer 0)).
Proof. split; [reflexivity|]. split; reflexivity. Qed.

Lemma sample_binding_passes :
  bindingPasses Sample.env Sample.planet
    (Field Sample.ptrB [Sample.failWith Sample.errMust]).
Proof.
  split; [reflexivity|]. split; [by eexists|].
  exists Sample.tString, (Sample.str ""), (Some Sample.errMust).
  split; [reflexivity|]. split; [reflexivity|].
  intros e [= <-]. vm_compute. discriminate.
Defined.

Lemma C4_field_not_found_amended_witness :
  ValidateStruct Sample.env Sample.planetPtr
    ([Field Sample.ptrB [Sample.failWith Sample.errMust]]
       ++ Field Sample.ptrElsewhere [Sample.pass]
       :: [Field Sample.ptrA [Sample.failWith Sample.errInternal]])
  = Done (Some (ErrFieldNotFound 1)).
Proof.
  apply (proj1 (C4_field_not_found_amended Sample.env None Sample.tPlanet
                  16%positive Sample.planet eq_refl)).
  - constructor; [apply sample_binding_passes|constructor].
  - reflexivity.
  - apply findStructField_None_iff. reflexivity.
Defined.

Lemma C5_internal_error_short_circuit_witness :
  ValidateStruct Sample.env Sample.planetPtr
    ([Field Sample.ptrB [Sample.failWith Sample.errMust]]
       ++ Field Sample.ptrA [Sample.failWith Sample.errInternal]
       :: [Field Sample.ptrElsewhere [Sample.pass]])
  = Done (Some (XrrNew "a: internal error" ECInternal)).
Proof.
  apply (C5_internal_error_short_circuit Sample.env None Sample.tPlanet
           16%positive Sample.planet
           [Field Sample.ptrB [Sample.failWith Sample.errMust]]
           [Field Sample.ptrElsewhere [Sample.pass]]
           (Field Sample.ptrA [Sample.failWith Sample.errInternal])
           Sample.declA Sample.tInt (Sample.int 7) Sample.errInternal).
  - reflexivity.
  - constructor; [apply sample_binding_passes|constructor].
  - reflexivity.
  - reflexivity.
  - reflexivity.
  - reflexivity.
  - reflexivity.
Defined.

Lemma C7_no_empty_fields_witness :
  EachRule_Validate Sample.env (Each [Sample.failWith Sample.errMust])
    (VSlice None Sample.tString (Some [])) = Done None
  /\ MapRule_Validate Sample.env (Map [Key (Sample.str "name") [Sample.pass]])
       Sample.nameMap = Done None.
Proof.
  destruct (C7_no_empty_fields Sample.env) as (_ & _ & _ & Heach & _ & Hmap & _).
  split.
  - apply (Heach _ _ Sample.tString []); [|constructor].
    exists None. right. by left.
  - apply Hmap.
    + constructor; [reflexivity|constructor].
    + intros _ k Hk. apply list_elem_of_singleton in Hk as ->.
      exists (Key (Sample.str "name") [Sample.pass]). split; [by left|reflexivity].
Defined.

(** ** The further properties at work *)

Lemma Validate_inactive_skip_witness :
  Validate Sample.env (Sample.int 5)
    ([Sample.pass] ++ skipRule_When Skip false
       :: [Sample.failWith Sample.errMust])
  = Validate Sample.env (Sample.int 5)
      ([Sample.pass] ++ [Sample.failWith Sample.errMust]).
Proof. apply (Validate_inactive_skip Sample.env). reflexivity. Defined.

Lemma Validate_skip_in_set_witness :
  Validate Sample.env (Sample.int 5)
    (Set_ Sample.env ([Sample.pass] ++ Skip :: [Sample.failWith Sample.errMust])
       :: [Sample.failWith Sample.errInternal])
  = Validate Sample.env (Sample.int 5) [Sample.failWith Sample.errInternal].
Proof.
  apply (Validate_skip_in_set Sample.env); [reflexivity|].
  intros r Hr _. apply list_elem_of_singleton in Hr. subst r. reflexivity.
Defined.

Lemma Validate_slice_of_validatable_witness :
  exists res,
    Validate Sample.envModels Sample.modelSlice [] = Done res
    /\ aggregates (imap (fun i out => (Itoa i, out))
                     [None; Some Sample.errZero; Some Sample.errZero]) res
    /\ forall ers, res = Some (XrrFields ers) ->
         forall i : nat,
           ers !! Itoa i
           = match [None; Some Sample.errZero; Some Sample.errZero] !! i with
             | Some (Some e) => Some (Some e)
             | _ => None
             end.
Proof.
  apply (Validate_slice_of_validatable Sample.envModels Sample.modelSlice
           Sample.tModel
           [Sample.model 32 1; Sample.model 40 0; Sample.model 48 0]).
  - exists None. right. reflexivity.
  - reflexivity.
  - reflexivity.
  - repeat constructor.
Defined.

Lemma Validate_map_of_validatable_witness :
  exists res,
    Validate Sample.envModels Sample.modelMap [] = Done res
    /\ aggregates (zip ((fun kx => Sprintf_v Sample.envModels kx.1)
                          <$> [(Sample.str "a", Sample.model 56 0);
                               (Sample.str "b", Sample.model 64 2)])
                     [Some Sample.errZero; None]) res.
Proof.
  apply (Validate_map_of_validatable Sample.envModels None Sample.tString
           Sample.tModel).
  - reflexivity.
  - reflexivity.
  - constructor; [|constructor; [|constructor]].
    + exists (Sample.model 56 0). split; reflexivity.
    + exists (Sample.model 64 2). split; reflexivity.
Defined.

Lemma Required_Empty_complement_witness :
  requiredRule_Validate Sample.env 1 Required (Sample.str "")
  = Some (Some ErrReq)
  /\ absentRule_Validate Sample.env 1 Empty (Sample.str "") = Some None.
Proof.
  apply (Required_Empty_complement Sample.env 1 (Sample.str "") true).
  reflexivity.
Defined.

Lemma NotEmpty_fails_iff_witness :
  requiredRule_Validate Sample.env 2 NotEmpty Sample.ptrB
  = Some (Some ErrReqNotEmpty)
  /\ requiredRule_Validate Sample.env 2 NotEmpty Sample.nilIntPtr = Some None.
Proof.
  split.
  - apply (NotEmpty_fails_iff Sample.env 2 Sample.ptrB true). reflexivity.
  - apply (NotEmpty_fails_iff Sample.env 2 Sample.nilIntPtr true). reflexivity.
Defined.

Lemma Required_Code_Error_order_witness :
  requiredRule_Validate Sample.env 1
    (requiredRule_Error (requiredRule_Code Sample.env Required "ECCustom")
       (Some Sample.errMust)) (Sample.int 0)
  = Some (Some Sample.errMust)
  /\ requiredRule_Validate Sample.env 1
       (requiredRule_Code Sample.env
          (requiredRule_Error Required (Some Sample.errMust)) "ECCustom")
       (Sample.int 0)
     = Some (Some (XrrWrap Sample.errMust "ECCustom")).
Proof.
  apply (Required_Code_Error_order Sample.env 1 (Sample.int 0) "ECCustom"
           Sample.errMust); [reflexivity|done|done].
Defined.

Lemma By_custom_code_witness :
  ByRule_Validate Sample.env
    (ByRule_Code (By (fun _ => Done (Some Sample.errMust))) "ECCustom")
    (Sample.int 5)
  = Done (Some (XrrWrap Sample.errMust "ECCustom"))
  /\ ByRule_Validate Sample.env
       (ByRule_Code (By (fun _ => Done (Some Sample.errMust))) "ECMustInt")
       (Sample.int 5)
     = Done (Some Sample.errMust).
Proof.
  split.
  - exact (proj1 (By_custom_code Sample.env
                    (By (fun _ => Done (Some Sample.errMust)))
                    "ECCustom" (Sample.int 5) Sample.errMust
                    ltac:(done) eq_refl eq_refl)).
  - exact (proj1 (By_custom_code Sample.env
                    (By (fun _ => Done (Some Sample.errMust)))
                    "ECMustInt" (Sample.int 5) Sample.errMust
                    ltac:(done) eq_refl eq_refl)).
Defined.


Lemma IsEmpty_returns_witness :
  exists b : bool,
    forall fuel : nat,
      (hops (Sample.intPtr 8 0) < fuel)%nat ->
      IsEmpty Sample.env fuel (Sample.intPtr 8 0) = Some b.
Proof. apply (IsEmpty_returns Sample.env). reflexivity. Defined.

Lemma IsEmpty_self_Valuer_witness :
  IsEmpty Sample.envText 1000 (Sample.text "x") = None.
Proof. apply (IsEmpty_self_Valuer Sample.envText); reflexivity. Defined.

Lemma Indirect_without_Valuer_witness :
  Indirect Sample.env Sample.nilMapPtr = VNil
  /\ Indirect Sample.env (Sample.intPtr 8 5) = Sample.int 5.
Proof.
  split.
  - rewrite (proj1 (proj2 (Indirect_without_Valuer Sample.env Sample.nilMapPtr
                             (fun _ => eq_refl)))
               None Sample.tMapStrInt 64%positive Sample.nilMap eq_refl).
    by apply (Indirect_without_Valuer Sample.env Sample.nilMap
                (fun _ => eq_refl)).
  - rewrite (proj1 (proj2 (Indirect_without_Valuer Sample.env
                             (Sample.intPtr 8 5) (fun _ => eq_refl)))
               None Sample.tInt 8%positive (Sample.int 5) eq_refl).
    by apply (Indirect_without_Valuer Sample.env (Sample.int 5)
                (fun _ => eq_refl)).
Defined.

Lemma mapErrKey_injective_witness : Sample.int 7 = Sample.int 7.
Proof.
  apply (mapErrKey_injective Sample.tInt (Sample.int 7) (Sample.int 7));
    reflexivity.
Defined.

Lemma Each_map_keys_named_by_type_witness :
  exists e, ({[ "<bool Value>" := Some Sample.errMust ]} : Fields)
            = {[ "<" ++ typeString Sample.tBool ++ " Value>" := Some e ]}.
Proof.
  apply (Each_map_keys_named_by_type Sample.env
           [Sample.failWith Sample.errMust] None Sample.tBool Sample.tInt
           [(VBool None true, Sample.int 1); (VBool None false, Sample.int 2)]).
  - reflexivity.
  - vm_compute. reflexivity.
Defined.

Lemma Map_unexpected_keys_witness :
  MapRule_Validate Sample.env (Map [Key (Sample.str "name") [Sample.pass]])
    Sample.extraMap
  = Done (Some (XrrFields {[ "extra" := Some ErrKeyUnexpected ]}))
  /\ exists res,
       MapRule_Validate Sample.env
         (Map [Key (Sample.str "name") [Sample.pass]]) Sample.extraMap
       = Done res
       /\ match res with
          | None =>
              forall k,
                k ∈ [(Sample.str "name", Sample.int 1);
                     (Sample.str "extra", Sample.int 2)].*1 ->
                exists kr,
                  kr ∈ mr_keys (Map [Key (Sample.str "name") [Sample.pass]])
                  /\ any_eq k (kr_key kr) = true
          | Some (XrrFields ers) =>
              forall name x,
                ers !! name = Some x
                <-> x = Some ErrKeyUnexpected
                    /\ exists k,
                         k ∈ [(Sample.str "name", Sample.int 1);
                              (Sample.str "extra", Sample.int 2)].*1
                         /\ (forall kr,
                               kr ∈ mr_keys
                                      (Map [Key (Sample.str "name")
                                              [Sample.pass]]) ->
                               any_eq k (kr_key kr) = false)
                         /\ name = getErrorKeyName Sample.env k
          | Some _ => False
          end.
Proof.
  split; [by vm_compute|].
  apply (Map_unexpected_keys Sample.env
           (Map [Key (Sample.str "name") [Sample.pass]]) None
           Sample.tString Sample.tInt).
  - reflexivity.
  - repeat constructor.
Defined.

Lemma ValidateStruct_aggregates_witness :
  exists ers : option Fields,
    ValidateStruct Sample.env Sample.planetPtr
      [Field Sample.ptrA [Sample.failWith Sample.errMust];
       Field Sample.ptrB [Sample.pass]]
    = Done (Fields_Filter ers)
    /\ default ∅ ers !! "a" = Some (Some Sample.errMust)
    /\ default ∅ ers !! "B" = None.
Proof.
  destruct (ValidateStruct_aggregates Sample.env None Sample.tPlanet 16
              Sample.planet
              [Field Sample.ptrA [Sample.failWith Sample.errMust];
               Field Sample.ptrB [Sample.pass]]
              [(Sample.declA, Some Sample.errMust); (Sample.declB, None)])
    as (ers & Hres & Hentries & Hfailed).
  - reflexivity.
  - constructor; [|constructor; [|constructor]].
    + split; [reflexivity|]. split; [reflexivity|]. split.
      * exists Sample.tInt, (Sample.int 7). split; reflexivity.
      * intros e [= <-]. split; [done|by left].
    + split; [reflexivity|]. split; [reflexivity|]. split.
      * exists Sample.tString, (Sample.str ""). split; reflexivity.
      * intros e [=].
  - exists ers. split; [exact Hres|]. split.
    + destruct (Hfailed 0%nat _ _ _ eq_refl eq_refl) as [x Hx].
      change (default ∅ ers !! "a" = Some x) in Hx.
      destruct (Hentries _ _ Hx) as ([|[|i]] & fr & sf & err & Hfr & Hso & Hn & ->);
        cbn in Hfr, Hso; simplify_eq; done.
    + destruct (default ∅ ers !! "B") as [x|] eqn:Hx; [|done].
      destruct (Hentries _ _ Hx) as ([|[|i]] & fr & sf & err & Hfr & Hso & Hn & ->);
        cbn in Hfr, Hso; simplify_eq; done.
Defined.

Lemma Map_bindings_witness :
  MapRule_IsDefined
    (Map [KeyRules_Optional (Key (Sample.str "a") []);
          Key (Sample.str "a") [Sample.pass];
          Key (Sample.str "b") []])
    (Sample.str "a") = true
  /\ MapRule_IsOptional
       (Map [KeyRules_Optional (Key (Sample.str "a") []);
             Key (Sample.str "a") [Sample.pass];
             Key (Sample.str "b") []])
       (Sample.str "a") = false.
Proof.
  apply (Map_bindings [KeyRules_Optional (Key (Sample.str "a") []);
                       Key (Sample.str "a") [Sample.pass];
                       Key (Sample.str "b") []]
           (Sample.str "a")).
  repeat constructor.
Defined.

Lemma keyError_own_key_type_witness :
  keyError Sample.env (ValueOf Sample.nameMap) Sample.tString Sample.keyX
  = Done (Some ErrKeyMissing)
  /\ keyError Sample.env (ValueOf Sample.nameMap) Sample.tString
       (Key (Sample.str "name") [Sample.failWith Sample.errMust])
     = Validate Sample.env (Sample.int 1) [Sample.failWith Sample.errMust].
Proof.
  split.
  - apply (keyError_own_key_type Sample.env None Sample.tString Sample.tInt
             [(Sample.str "name", Sample.int 1)] Sample.keyX).
    reflexivity.
  - apply (keyError_own_key_type Sample.env None Sample.tString Sample.tInt
             [(Sample.str "name", Sample.int 1)]
             (Key (Sample.str "name") [Sample.failWith Sample.errMust])).
    reflexivity.
Defined.

Lemma Map_aggregates_witness :
  MapRule_Validate Sample.env
    (Map [Key (Sample.str "name") [Sample.failWith Sample.errMust];
          Sample.keyX])
    Sample.nameMap
  = Done (Some (XrrFields {[ "name" := Some Sample.errMust;
                             "x" := Some ErrKeyMissing ]}))
  /\ exists res,
       MapRule_Validate Sample.env
         (Map [Key (Sample.str "name") [Sample.failWith Sample.errMust];
               Sample.keyX])
         Sample.nameMap
       = Done res
       /\ aggregates [("name", Some Sample.errMust); ("x", Some ErrKeyMissing)]
            res.
Proof.
  split; [by vm_compute|].
  apply (Map_aggregates Sample.env
           (Map [Key (Sample.str "name") [Sample.failWith Sample.errMust];
                 Sample.keyX])
           None Sample.tString Sample.tInt
           [(Sample.str "name", Sample.int 1)]
           [Some Sample.errMust; Some ErrKeyMissing]).
  - right. intros k ->%list_elem_of_singleton.
    exists (Key (Sample.str "name") [Sample.failWith Sample.errMust]).
    split; [apply elem_of_cons; by left|reflexivity].
  - constructor; [|constructor; [|constructor]].
    + split; [reflexivity|]. by intros e [= <-].
    + split; [reflexivity|]. by intros e [= <-].
Defined.
